(** * AposaJson: value model, serializer and parser of AposaJson.hpp

    A shallow embedding of [include/AposaJson/AposaJson.hpp] and the
    properties of it that the specification states.

    Conventions of the embedding.
    - [std::string] is [string]; a [std::string::const_iterator] into the
      parsed text is the index ([nat]) of the character it points to, and
      [end()] is the length of the text.
    - Advancing an iterator is arithmetic on the index.  Dereferencing an
      index at or beyond the length of the text is undefined behaviour in
      C++; the model reports it as [Undefined OutOfBounds] at the
      dereference.
    - Members of [JsonValue] that its constructors leave uninitialised
      ([_number_type], the anonymous union, [_boolean]) carry an explicit
      "indeterminate" state; reading it is [Undefined Indeterminate].
    - [std::map] / [std::unordered_map] is an association list in iteration
      order; where a fresh key lands is left to the [MapBackend].
    - Loops that may not terminate ([ParseArray] on text without a closing
      bracket re-reads the same character for ever) take fuel;
      [OutOfFuel] is a run that has not come to an end within the fuel.
    - Memory is not bounded in the model.  Where the code allocates
      without end (the loop of [ParseArray] adding an element at every
      turn) the run ends with [std::bad_alloc] once an allocation fails;
      the model has no such exception and runs out of fuel there, for
      every fuel.  [Throw] is for the two exceptions of the [std::sto*]
      conversions only. *)

From Stdlib Require Import Bool Arith ZArith Lia List Ascii String
  Permutation DecimalString.
From Stdlib Require DecimalZ.
Import ListNotations.

Local Open Scope list_scope.
Local Open Scope string_scope.

(* ================================================================== *)
(** ** Outcomes of running C++ code *)

Inductive exception : Type :=
  | invalid_argument      (* std::invalid_argument, from std::sto* *)
  | out_of_range.         (* std::out_of_range, from std::sto* *)

Inductive undefined : Type :=
  | OutOfBounds           (* dereference of an iterator outside the text *)
  | Indeterminate         (* read of an uninitialised member *)
  | InactiveMember        (* read of a union member that is not active *)
  | SignedOverflow.       (* [++i] on an [int] that holds [INT_MAX] *)

Inductive outcome (A : Type) : Type :=
  | Ok (a : A)
  | Throw (e : exception)
  | Undefined (u : undefined)
  | OutOfFuel.

Arguments Ok {A} a.
Arguments Throw {A} e.
Arguments Undefined {A} u.
Arguments OutOfFuel {A}.

Definition bind {A B : Type} (m : outcome A) (k : A -> outcome B) : outcome B :=
  match m with
  | Ok a => k a
  | Throw e => Throw e
  | Undefined u => Undefined u
  | OutOfFuel => OutOfFuel
  end.

Notation "x <- m ;; k" := (bind m (fun x => k))
  (at level 61, m at next level, right associativity).
Notation "' p <- m ;; k" := (bind m (fun x => match x with p => k end))
  (at level 61, p pattern, m at next level, right associativity).

Definition is_Ok {A : Type} (r : outcome A) : bool :=
  match r with Ok _ => true | _ => false end.

Definition is_Throw {A : Type} (r : outcome A) : bool :=
  match r with Throw _ => true | _ => false end.

(* ================================================================== *)
(** ** Characters and strings *)

(** The double quote, code 34. *)
Definition dq : ascii := Ascii.ascii_of_nat 34.

(** [quoted s] is [s] between two double quotes. *)
Definition quoted (s : string) : string :=
  String dq (s ++ String dq EmptyString).

Definition push_back (s : string) (c : ascii) : string :=
  s ++ String c EmptyString.

(** [isspace] of the "C" locale: space, \t, \n, \v, \f, \r. *)
Definition isspace (c : ascii) : bool :=
  let n := nat_of_ascii c in
  (n =? 32)%nat || ((9 <=? n)%nat && (n <=? 13)%nat).

Definition is_digit (c : ascii) : bool :=
  let n := nat_of_ascii c in
  (48 <=? n)%nat && (n <=? 57)%nat.

(** [cache.erase(std::remove_if(cache.begin(), cache.end(), isspace),
    cache.end())] *)
Fixpoint erase_spaces (s : string) : string :=
  match s with
  | EmptyString => EmptyString
  | String c s' => if isspace c then erase_spaces s' else String c (erase_spaces s')
  end.

(** The text from index [n] on. *)
Fixpoint string_drop (n : nat) (s : string) : string :=
  match n, s with
  | O, _ => s
  | S n', String _ s' => string_drop n' s'
  | S _, EmptyString => EmptyString
  end.

(* ================================================================== *)
(** ** Fixed-width integers *)

Definition INT_MIN : Z := - 2 ^ 31.
Definition INT_MAX : Z := 2 ^ 31 - 1.
Definition LLONG_MIN : Z := - 2 ^ 63.
Definition LLONG_MAX : Z := 2 ^ 63 - 1.
Definition ULLONG_MAX : Z := 2 ^ 64 - 1.

(** [unsigned long] of an LP64 platform. *)
Definition ULONG_MAX : Z := 2 ^ 64 - 1.

(** Conversion to an unsigned type of [w] bits: reduction modulo [2^w]. *)
Definition to_unsigned (w : Z) (z : Z) : Z := (z mod 2 ^ w)%Z.

(** Conversion to a signed type of [w] bits: the value congruent to [z]
    modulo [2^w] in the range of the type. *)
Definition to_signed (w : Z) (z : Z) : Z :=
  let u := (z mod 2 ^ w)%Z in
  if (u <? 2 ^ (w - 1))%Z then u else (u - 2 ^ w)%Z.

(** [++i] on an [int]. *)
Definition preincrement (i : Z) : outcome Z :=
  if (i <? INT_MAX)%Z then Ok (i + 1)%Z else Undefined SignedOverflow.

(** [std::to_string] of an integer: decimal digits, [-] before a negative. *)
Definition to_string (z : Z) : string :=
  NilZero.string_of_int (Z.to_int z).

(* ================================================================== *)
(** ** std::stoi, std::stoul, std::stoll, std::stoull *)

Definition digit_value (c : ascii) : Z := (Z.of_nat (nat_of_ascii c) - 48)%Z.

Fixpoint skip_spaces (s : string) : string :=
  match s with
  | String c s' => if isspace c then skip_spaces s' else s
  | EmptyString => EmptyString
  end.

(** The longest run of decimal digits at the head of [s]: whether there was
    one, and the number accumulated onto [acc]. *)
Fixpoint read_digits (s : string) (seen : bool) (acc : Z) : bool * Z :=
  match s with
  | String c s' =>
      if is_digit c then read_digits s' true (acc * 10 + digit_value c)%Z
      else (seen, acc)
  | EmptyString => (seen, acc)
  end.

(** What [strtol] and its siblings read in base 10: leading white space,
    an optional sign, digits.  [None] when no digit was found; otherwise
    the sign ([true] for [-]) and the magnitude. *)
Definition scan_integer (s : string) : option (bool * Z) :=
  let s := skip_spaces s in
  let '(neg, s) :=
    match s with
    | String c s' =>
        if Ascii.eqb c "-" then (true, s')
        else if Ascii.eqb c "+" then (false, s')
        else (false, s)
    | EmptyString => (false, s)
    end in
  match read_digits s false 0 with
  | (true, m) => Some (neg, m)
  | (false, _) => None
  end.

(** Signed conversion with result range [lo..hi]. *)
Definition sto_signed (lo hi : Z) (s : string) : outcome Z :=
  match scan_integer s with
  | None => Throw invalid_argument
  | Some (neg, m) =>
      let v := if neg then (- m)%Z else m in
      if ((lo <=? v) && (v <=? hi))%Z then Ok v else Throw out_of_range
  end.

(** Unsigned conversion: the magnitude is checked against [max], a minus
    sign negates in the unsigned type. *)
Definition sto_unsigned (max : Z) (s : string) : outcome Z :=
  match scan_integer s with
  | None => Throw invalid_argument
  | Some (neg, m) =>
      if (m <=? max)%Z
      then Ok (if neg then ((max + 1 - m) mod (max + 1))%Z else m)
      else Throw out_of_range
  end.

Definition stoi : string -> outcome Z := sto_signed INT_MIN INT_MAX.
Definition stoll : string -> outcome Z := sto_signed LLONG_MIN LLONG_MAX.
Definition stoul : string -> outcome Z := sto_unsigned ULONG_MAX.
Definition stoull : string -> outcome Z := sto_unsigned ULLONG_MAX.

(** The floating-point conversions of the C++ library.  A [double] or
    [float] is carried as its bit pattern; the arithmetic behind
    [std::stod], [std::stof] and [std::to_string] is not modelled. *)
Class FloatText : Type := {
  stod : string -> outcome Z;
  stof : string -> outcome Z;
  to_string_double : Z -> string;
  to_string_float : Z -> string
}.

(* ================================================================== *)
(** ** The value model: [JsonValueType], [JsonNumberType], [JsonValue] *)

Module JsonValueType.
Inductive t : Type := Null | Boolean | Number | String | Array | Object.
End JsonValueType.

Module JsonNumberType.
Inductive t : Type := Int | Uint | Int64 | Uint64 | Double | Float | Int16 | String.
End JsonNumberType.

(** The anonymous union of [JsonValue]: the member written last is the
    active one; nothing is active before the first write. *)
Inductive number_union : Type :=
  | no_value
  | int_value (v : Z)
  | uint_value (v : Z)
  | int64t_value (v : Z)
  | uint64t_value (v : Z)
  | double_value (bits : Z)
  | float_value (bits : Z)
  | int16_value (v : Z).

(** [class JsonValue].  [_number_type] and [_boolean] are [None] while
    indeterminate. *)
Unset Elimination Schemes.
Inductive JsonValue : Type := Build_JsonValue {
  _type : JsonValueType.t;
  _number_type : option JsonNumberType.t;
  _union : number_union;
  number_string : string;
  _boolean : option bool;
  _string : string;
  _array : list JsonValue;
  _object : list (string * JsonValue)
}.
Set Elimination Schemes.

(** The member mapping of an object or a document, in iteration order. *)
Definition members : Type := list (string * JsonValue).

(** [JsonValue(JsonValueType type) : _type(type) {}] *)
Definition JsonValue_of (type : JsonValueType.t) : JsonValue :=
  {| _type := type; _number_type := None; _union := no_value;
     number_string := EmptyString; _boolean := None; _string := EmptyString;
     _array := []; _object := [] |}.

(** [JsonValue() : _type(JsonValueType::Null) {}] *)
Definition JsonValue_default : JsonValue := JsonValue_of JsonValueType.Null.

(** *** Lookup and assignment in the member mapping *)

Fixpoint find (key : string) (m : members) : option JsonValue :=
  match m with
  | [] => None
  | (k, v) :: m' => if String.eqb key k then Some v else find key m'
  end.

(** Overwrite the value stored under [key], which is present. *)
Fixpoint replace (key : string) (value : JsonValue) (m : members) : members :=
  match m with
  | [] => []
  | (k, v) :: m' =>
      if String.eqb key k then (k, value) :: m'
      else (k, v) :: replace key value m'
  end.

(** The backend decides where a key that is not yet present is placed in
    the iteration order.  It adds exactly that entry and does not disturb
    the lookup of the other keys. *)
Class MapBackend : Type := {
  emplace : string -> JsonValue -> members -> members;
  emplace_Permutation :
    forall key value m, Permutation (emplace key value m) ((key, value) :: m);
  emplace_find_other :
    forall key value m key', key' <> key ->
      find key' (emplace key value m) = find key' m
}.

(** [m[key] = value] *)
Definition assign `{MapBackend} (key : string) (value : JsonValue) (m : members)
  : members :=
  match find key m with
  | Some _ => replace key value m
  | None => emplace key value m
  end.

(** [std::map]: iteration in increasing key order. *)
Fixpoint sorted_insert (key : string) (value : JsonValue) (m : members) : members :=
  match m with
  | [] => [(key, value)]
  | (k, v) :: m' =>
      if String.ltb key k then (key, value) :: (k, v) :: m'
      else (k, v) :: sorted_insert key value m'
  end.

Section ValueModel.
Context {FT : FloatText}.

(** *** Accessors of [JsonValue] *)

Definition GetType (v : JsonValue) : JsonValueType.t := _type v.

Definition GetNumberType (v : JsonValue) : outcome JsonNumberType.t :=
  match _number_type v with
  | Some nt => Ok nt
  | None => Undefined Indeterminate
  end.

Definition SetBoolean (value : bool) (v : JsonValue) : JsonValue :=
  {| _type := JsonValueType.Boolean; _number_type := _number_type v;
     _union := _union v; number_string := number_string v;
     _boolean := Some value; _string := _string v;
     _array := _array v; _object := _object v |}.

Definition GetBoolean (v : JsonValue) : outcome bool :=
  match _boolean v with
  | Some b => Ok b
  | None => Undefined Indeterminate
  end.

Definition SetNumberString (value : string) (v : JsonValue) : JsonValue :=
  {| _type := _type v; _number_type := Some JsonNumberType.String;
     _union := _union v; number_string := value;
     _boolean := _boolean v; _string := _string v;
     _array := _array v; _object := _object v |}.

Definition GetNumberString (v : JsonValue) : string := number_string v.

(** The shape shared by the typed numeric setters: tag, subkind, union. *)
Definition set_number (nt : JsonNumberType.t) (u : number_union) (v : JsonValue)
  : JsonValue :=
  {| _type := JsonValueType.Number; _number_type := Some nt;
     _union := u; number_string := number_string v;
     _boolean := _boolean v; _string := _string v;
     _array := _array v; _object := _object v |}.

(** The parameter of a typed integer setter has the type of the union
    member ([const int value], [const unsigned int value], [const int64_t
    value], [const uint64_t value], [const short value]): an integer
    argument is converted to that type at the call, and the converted
    value is what the setter stores. *)
Definition SetInt (value : Z) :=
  set_number JsonNumberType.Int (int_value (to_signed 32 value)).
Definition SetUint (value : Z) :=
  set_number JsonNumberType.Uint (uint_value (to_unsigned 32 value)).
Definition SetInt64 (value : Z) :=
  set_number JsonNumberType.Int64 (int64t_value (to_signed 64 value)).
Definition SetUint64 (value : Z) :=
  set_number JsonNumberType.Uint64 (uint64t_value (to_unsigned 64 value)).
Definition SetDouble (bits : Z) := set_number JsonNumberType.Double (double_value bits).
Definition SetFloat (bits : Z) := set_number JsonNumberType.Float (float_value bits).
Definition SetInt16 (value : Z) :=
  set_number JsonNumberType.Int16 (int16_value (to_signed 16 value)).

(** The shape shared by the numeric getters:
    [if (_number_type == JsonNumberType::String) return conv(number_string);
     return member;] *)
Definition get_number (conv : string -> outcome Z)
    (member : number_union -> option Z) (v : JsonValue) : outcome Z :=
  nt <- GetNumberType v ;;
  match nt with
  | JsonNumberType.String => conv (number_string v)
  | _ =>
      match _union v with
      | no_value => Undefined Indeterminate
      | u => match member u with
             | Some z => Ok z
             | None => Undefined InactiveMember
             end
      end
  end.

Definition GetInt : JsonValue -> outcome Z :=
  get_number stoi (fun u => match u with int_value z => Some z | _ => None end).

(** [std::stoul] returns [unsigned long]; the [return] converts it to
    [unsigned int]. *)
Definition GetUint : JsonValue -> outcome Z :=
  get_number (fun s => z <- stoul s ;; Ok (to_unsigned 32 z))
    (fun u => match u with uint_value z => Some z | _ => None end).

Definition GetInt64 : JsonValue -> outcome Z :=
  get_number stoll (fun u => match u with int64t_value z => Some z | _ => None end).

Definition GetUint64 : JsonValue -> outcome Z :=
  get_number stoull (fun u => match u with uint64t_value z => Some z | _ => None end).

Definition GetDouble : JsonValue -> outcome Z :=
  get_number stod (fun u => match u with double_value b => Some b | _ => None end).

Definition GetFloat : JsonValue -> outcome Z :=
  get_number stof (fun u => match u with float_value b => Some b | _ => None end).

(** [std::stoi] returns [int]; the [return] converts it to [short]. *)
Definition GetInt16 : JsonValue -> outcome Z :=
  get_number (fun s => z <- stoi s ;; Ok (to_signed 16 z))
    (fun u => match u with int16_value z => Some z | _ => None end).

Definition SetString (value : string) (v : JsonValue) : JsonValue :=
  {| _type := JsonValueType.String; _number_type := _number_type v;
     _union := _union v; number_string := number_string v;
     _boolean := _boolean v; _string := value;
     _array := _array v; _object := _object v |}.

Definition GetString (v : JsonValue) : string := _string v.

Definition AddElement (value : JsonValue) (v : JsonValue) : JsonValue :=
  {| _type := JsonValueType.Array; _number_type := _number_type v;
     _union := _union v; number_string := number_string v;
     _boolean := _boolean v; _string := _string v;
     _array := (_array v ++ [value])%list; _object := _object v |}.

Definition GetArray (v : JsonValue) : list JsonValue := _array v.

Definition AddMember `{MapBackend} (key : string) (value : JsonValue) (v : JsonValue)
  : JsonValue :=
  {| _type := JsonValueType.Object; _number_type := _number_type v;
     _union := _union v; number_string := number_string v;
     _boolean := _boolean v; _string := _string v;
     _array := _array v; _object := assign key value (_object v) |}.

Definition GetObject (v : JsonValue) : members := _object v.

End ValueModel.

(** [class JsonDocument] *)
Record JsonDocument : Type := Build_JsonDocument { _map : members }.

(** [JsonDocument() {}] *)
Definition JsonDocument_default : JsonDocument := {| _map := [] |}.

(** The member functions of [JsonDocument], under its name:
    [JsonDocument.AddMember] is apart from [AddMember] of [JsonValue]. *)
Module JsonDocument.
Definition AddMember `{MapBackend} (key : string) (value : JsonValue)
    (doc : JsonDocument) : JsonDocument :=
  {| _map := assign key value (_map doc) |}.

Definition GetMember (doc : JsonDocument) : members := _map doc.
End JsonDocument.

(* ================================================================== *)
(** ** [class JsonSerializer] *)

Section Serializer.
Context {FT : FloatText}.

(** Appends the key between double quotes, then a colon. *)
Definition GenKey (tmp_str : string) (key : string) : string :=
  tmp_str ++ (String dq EmptyString ++ key ++ String dq (String ":" EmptyString)).

(** The inner [switch (item.GetNumberType())], which the three functions
    below each spell out: the text appended for a value tagged Number. *)
Definition NumberText (item : JsonValue) : outcome string :=
  nt <- GetNumberType item ;;
  match nt with
  | JsonNumberType.Int => z <- GetInt item ;; Ok (to_string z)
  | JsonNumberType.Uint => z <- GetUint item ;; Ok (to_string z)
  | JsonNumberType.Int64 => z <- GetInt64 item ;; Ok (to_string z)
  | JsonNumberType.Uint64 => z <- GetUint64 item ;; Ok (to_string z)
  | JsonNumberType.Double => b <- GetDouble item ;; Ok (to_string_double b)
  | JsonNumberType.Float => b <- GetFloat item ;; Ok (to_string_float b)
  | JsonNumberType.Int16 => z <- GetInt16 item ;; Ok (to_string z)
  | JsonNumberType.String => Ok (GetNumberString item)
  end.

(** [GenArray] and [GenObject] append to [tmp_str], which is threaded
    through; [i] is the [int] counter of [if (++i < size) tmp_str += ","],
    compared with the size after conversion to its unsigned type, which
    keeps the value of a positive [int]. *)
Fixpoint GenArray (tmp_str : string) (value : JsonValue) {struct value}
  : outcome string :=
  let arr := GetArray value in
  let tmp_str := tmp_str ++ "[" in
  tmp_str <-
    (fix for_item (items : list JsonValue) (i : Z) (tmp_str : string)
       {struct items} : outcome string :=
       match items with
       | [] => Ok tmp_str
       | item :: rest =>
           tmp_str <-
             match GetType item with
             | JsonValueType.Null => Ok (tmp_str ++ "null")
             | JsonValueType.Boolean =>
                 b <- GetBoolean item ;;
                 Ok (tmp_str ++ (if b then "true" else "false"))
             | JsonValueType.Number =>
                 s <- NumberText item ;; Ok (tmp_str ++ s)
             | JsonValueType.String =>
                 Ok (tmp_str ++ (String dq EmptyString ++ GetString item
                                   ++ String dq EmptyString))
             | JsonValueType.Array => GenArray tmp_str item
             | JsonValueType.Object => GenObject tmp_str item
             end ;;
           i <- preincrement i ;;
           let tmp_str := if (i <? Z.of_nat (List.length arr))%Z
                          then tmp_str ++ "," else tmp_str in
           for_item rest i tmp_str
       end) arr 0%Z tmp_str ;;
  Ok (tmp_str ++ "]")

with GenObject (tmp_str : string) (obj : JsonValue) {struct obj}
  : outcome string :=
  let members := GetObject obj in
  let tmp_str := tmp_str ++ "{" in
  tmp_str <-
    (fix for_member (ms : list (string * JsonValue)) (i : Z) (tmp_str : string)
       {struct ms} : outcome string :=
       match ms with
       | [] => Ok tmp_str
       | (first, second) :: rest =>
           let tmp_str := GenKey tmp_str first in
           tmp_str <-
             match GetType second with
             | JsonValueType.Null => Ok (tmp_str ++ "null")
             | JsonValueType.Boolean =>
                 b <- GetBoolean second ;;
                 Ok (tmp_str ++ (if b then "true" else "false"))
             | JsonValueType.Number =>
                 s <- NumberText second ;; Ok (tmp_str ++ s)
             | JsonValueType.String =>
                 Ok (tmp_str ++ (String dq EmptyString ++ GetString second
                                   ++ String dq EmptyString))
             | JsonValueType.Array => GenArray tmp_str second
             | JsonValueType.Object => GenObject tmp_str second
             end ;;
           i <- preincrement i ;;
           let tmp_str := if (i <? Z.of_nat (List.length members))%Z
                          then tmp_str ++ "," else tmp_str in
           for_member rest i tmp_str
       end) members 0%Z tmp_str ;;
  Ok (tmp_str ++ "}").

Definition SerializeObject (doc : JsonDocument) : outcome string :=
  let members := JsonDocument.GetMember doc in
  let tmp_result := EmptyString in
  let tmp_result := tmp_result ++ "{" in
  tmp_result <-
    (fix for_member (ms : list (string * JsonValue)) (i : Z) (tmp_result : string)
       {struct ms} : outcome string :=
       match ms with
       | [] => Ok tmp_result
       | (first, second) :: rest =>
           tmp_result <-
             match GetType second with
             | JsonValueType.Null =>
                 let tmp_result := GenKey tmp_result first in
                 Ok (tmp_result ++ "null")
             | JsonValueType.Boolean =>
                 let tmp_result := GenKey tmp_result first in
                 b <- GetBoolean second ;;
                 Ok (tmp_result ++ (if b then "true" else "false"))
             | JsonValueType.Number =>
                 let tmp_result := GenKey tmp_result first in
                 s <- NumberText second ;; Ok (tmp_result ++ s)
             | JsonValueType.String =>
                 let tmp_result := GenKey tmp_result first in
                 let tmp_result := tmp_result ++ String dq EmptyString in
                 let tmp_result := tmp_result ++ GetString second in
                 Ok (tmp_result ++ String dq EmptyString)
             | JsonValueType.Array =>
                 let tmp_result := GenKey tmp_result first in
                 GenArray tmp_result second
             | JsonValueType.Object =>
                 let tmp_result := GenKey tmp_result first in
                 GenObject tmp_result second
             end ;;
           i <- preincrement i ;;
           let tmp_result := if (i <? Z.of_nat (List.length members))%Z
                             then tmp_result ++ "," else tmp_result in
           for_member rest i tmp_result
       end) members 0%Z tmp_result ;;
  Ok (tmp_result ++ "}").

End Serializer.

(* ================================================================== *)
(** ** [class JsonParser] *)

Section Parser.
Context {B : MapBackend}.

(** The text [_it] and [_it_end] point into, and [_it_end].  [_it] is
    the state every member function takes and gives back. *)
Variable text : string.
Variable _it_end : nat.

(** [*_it] *)
Definition deref (_it : nat) : outcome ascii :=
  match String.get _it text with
  | Some c => Ok c
  | None => Undefined OutOfBounds
  end.

(** The loop of [ParseString]: while [*_it] is not the double quote,
    [cache += *_it; _it++], over the text that starts at [_it]. *)
Fixpoint ParseString_while (rest : string) (_it : nat) (cache : string)
  : outcome (string * nat) :=
  match rest with
  | EmptyString => Undefined OutOfBounds
  | String c rest' =>
      if Ascii.eqb c dq then Ok (cache, _it)
      else ParseString_while rest' (S _it) (push_back cache c)
  end.

Definition ParseString (_it : nat) : outcome (string * nat) :=
  let _it := S _it in
  '(cache, _it) <- ParseString_while (string_drop _it text) _it EmptyString ;;
  let _it := S _it in
  Ok (cache, _it).

(** [ParseNull] is never called. *)
Definition ParseNull (_it : nat) : nat := _it + 4.

Definition ParseBoolean (_it : nat) : outcome (bool * nat) :=
  c <- deref _it ;;
  if Ascii.eqb c "t" then Ok (true, _it + 4)
  else Ok (false, _it + 5).

(** The loop of [ParseNumber],
    [while ( *_it != ',' || (_it == _it_end) == true)
      { if ( *_it == '}') break; cache += *_it; _it++; }],
    over the text that starts at [_it]. *)
Fixpoint ParseNumber_while (rest : string) (_it : nat) (cache : string)
  : outcome (string * nat) :=
  match rest with
  | EmptyString => Undefined OutOfBounds
  | String c rest' =>
      if negb (Ascii.eqb c ",") || (_it =? _it_end)%nat then
        if Ascii.eqb c "}" then Ok (cache, _it)
        else ParseNumber_while rest' (S _it) (push_back cache c)
      else Ok (cache, _it)
  end.

Definition ParseNumber (_it : nat) : outcome (string * nat) :=
  '(cache, _it) <- ParseNumber_while (string_drop _it text) _it EmptyString ;;
  Ok (erase_spaces cache, _it).

(** [*_it == ',' || *_it == ' ' || *_it == '\n'] *)
Definition is_separator (c : ascii) : bool :=
  Ascii.eqb c "," || Ascii.eqb c " " || Ascii.eqb c (Ascii.ascii_of_nat 10).

(** [ParseValue], [ParseArray] and [ParseObject] call one another; every
    call and every turn of a loop takes one unit of fuel. *)
Fixpoint ParseValue (fuel : nat) (_it : nat) {struct fuel}
  : outcome (JsonValue * nat) :=
  if (_it =? _it_end)%nat then Ok (JsonValue_default, _it) else
  match fuel with
  | O => OutOfFuel
  | S fuel =>
      c <- deref _it ;;
      if Ascii.eqb c "n" then
        Ok (JsonValue_of JsonValueType.Null, _it)
      else if Ascii.eqb c "t" || Ascii.eqb c "f" then
        let value := JsonValue_default in
        '(b, _it) <- ParseBoolean _it ;;
        Ok (SetBoolean b value, _it)
      else if Ascii.eqb c dq then
        let value := JsonValue_default in
        '(s, _it) <- ParseString _it ;;
        Ok (SetString s value, _it)
      else if Ascii.eqb c "[" then
        ParseArray fuel _it
      else if Ascii.eqb c "{" then
        ParseObject fuel _it
      else if is_digit c then
        let value := JsonValue_of JsonValueType.Number in
        '(s, _it) <- ParseNumber _it ;;
        Ok (SetNumberString s value, _it)
      else
        ParseValue fuel (S _it)
  end

with ParseArray (fuel : nat) (_it : nat) {struct fuel}
  : outcome (JsonValue * nat) :=
  match fuel with
  | O => OutOfFuel
  | S fuel =>
      let _it := S _it in
      let value := JsonValue_of JsonValueType.Array in
      ParseArray_while fuel value _it
  end

with ParseArray_while (fuel : nat) (value : JsonValue) (_it : nat) {struct fuel}
  : outcome (JsonValue * nat) :=
  match fuel with
  | O => OutOfFuel
  | S fuel =>
      c <- deref _it ;;
      if Ascii.eqb c "]" then Ok (value, _it)
      else if is_separator c then ParseArray_while fuel value (S _it)
      else
        '(element, _it) <- ParseValue fuel _it ;;
        ParseArray_while fuel (AddElement element value) _it
  end

with ParseObject (fuel : nat) (_it : nat) {struct fuel}
  : outcome (JsonValue * nat) :=
  match fuel with
  | O => OutOfFuel
  | S fuel =>
      let _it := S _it in
      let refValue := JsonValue_of JsonValueType.Object in
      '(refValue, _it) <- ParseObject_while fuel refValue _it ;;
      let _it := S _it in
      Ok (refValue, _it)
  end

with ParseObject_while (fuel : nat) (refValue : JsonValue) (_it : nat)
  {struct fuel} : outcome (JsonValue * nat) :=
  match fuel with
  | O => OutOfFuel
  | S fuel =>
      c <- deref _it ;;
      if Ascii.eqb c "}" then Ok (refValue, _it)
      else if is_separator c then ParseObject_while fuel refValue (S _it)
      else
        '(key, _it) <- ParseString _it ;;
        '(value, _it) <- ParseValue fuel _it ;;
        ParseObject_while fuel (AddMember key value refValue) _it
  end.

(** The locals of [ParseJson] that live across the turns of its loop,
    together with [_it]. *)
Record ParseJson_state : Type := Build_ParseJson_state {
  doc : JsonDocument;
  isKey : bool;
  key_word : string;
  it : nat
}.

(** The body of the [for] loop of [ParseJson]: the [switch] on [*_it]. *)
Definition ParseJson_body (fuel : nat) (st : ParseJson_state)
  : outcome ParseJson_state :=
  let _it := it st in
  c <- deref _it ;;
  if Ascii.eqb c "n" then
    Ok {| doc := JsonDocument.AddMember (key_word st) (JsonValue_of JsonValueType.Null) (doc st);
          isKey := false; key_word := key_word st; it := _it |}
  else if Ascii.eqb c "t" || Ascii.eqb c "f" then
    let value := JsonValue_default in
    '(b, _it) <- ParseBoolean _it ;;
    let value := SetBoolean b value in
    Ok {| doc := JsonDocument.AddMember (key_word st) value (doc st);
          isKey := false; key_word := key_word st; it := _it |}
  else if Ascii.eqb c dq then
    if negb (isKey st) then
      '(s, _it) <- ParseString _it ;;
      Ok {| doc := doc st; isKey := true; key_word := s; it := _it |}
    else
      let value := JsonValue_default in
      '(s, _it) <- ParseString _it ;;
      let value := SetString s value in
      Ok {| doc := JsonDocument.AddMember (key_word st) value (doc st);
            isKey := false; key_word := key_word st; it := _it |}
  else if Ascii.eqb c "[" then
    '(value, _it) <- ParseArray fuel _it ;;
    Ok {| doc := JsonDocument.AddMember (key_word st) value (doc st);
          isKey := false; key_word := key_word st; it := _it |}
  else if Ascii.eqb c "{" then
    '(value, _it) <- ParseObject fuel _it ;;
    Ok {| doc := JsonDocument.AddMember (key_word st) value (doc st);
          isKey := false; key_word := key_word st; it := _it |}
  else if is_digit c then
    let value := JsonValue_of JsonValueType.Number in
    '(s, _it) <- ParseNumber _it ;;
    let value := SetNumberString s value in
    Ok {| doc := JsonDocument.AddMember (key_word st) value (doc st);
          isKey := false; key_word := key_word st; it := _it |}
  else Ok st.

(** [++_it], at the end of every turn and on [continue]. *)
Definition ParseJson_incr (st : ParseJson_state) : ParseJson_state :=
  {| doc := doc st; isKey := isKey st; key_word := key_word st; it := S (it st) |}.

(** One turn of the loop, for a state with [_it != _it_end]. *)
Definition ParseJson_turn (fuel : nat) (st : ParseJson_state)
  : outcome ParseJson_state :=
  st <- ParseJson_body fuel st ;; Ok (ParseJson_incr st).

(** [for (; _it != _it_end; ++_it) { switch ... } return doc;] *)
Fixpoint ParseJson_for (fuel : nat) (st : ParseJson_state) {struct fuel}
  : outcome JsonDocument :=
  if (it st =? _it_end)%nat then Ok (doc st) else
  match fuel with
  | O => OutOfFuel
  | S fuel =>
      st <- ParseJson_turn fuel st ;;
      ParseJson_for fuel st
  end.

(** The state after [n] turns of the loop, while it keeps running. *)
Fixpoint ParseJson_turns (fuel : nat) (n : nat) (st : ParseJson_state)
  : outcome ParseJson_state :=
  match n with
  | O => Ok st
  | S n =>
      if (it st =? _it_end)%nat then Ok st else
      st <- ParseJson_turn fuel st ;; ParseJson_turns fuel n st
  end.

End Parser.

Section Parse.
Context {B : MapBackend}.

(** [ParseJson], with [_it] at the beginning of a text that is not empty
    and [_it_end] at its end. *)
Definition ParseJson (fuel : nat) (text : string) (_it _it_end : nat)
  : outcome JsonDocument :=
  c <- deref text _it ;;
  if Ascii.eqb c "{" then
    let _it := S _it in
    let _it_end := Nat.pred _it_end in
    let doc := JsonDocument_default in
    let isKey := false in
    let key_word := EmptyString in
    ParseJson_for text _it_end fuel
      {| doc := doc; isKey := isKey; key_word := key_word; it := _it |}
  else Ok JsonDocument_default.

Definition Parse (fuel : nat) (json_str : string) : outcome JsonDocument :=
  match json_str with
  | EmptyString => Ok JsonDocument_default
  | _ =>
      let _it := O in
      let _it_end := String.length json_str in
      ParseJson fuel json_str _it _it_end
  end.

End Parse.

(* ================================================================== *)
(** ** The rendering the specification describes *)

Section Rendering.
Context {FT : FloatText}.

(** The textual form of the numeric subkind: raw text verbatim, the typed
    subkinds in decimal. *)
Definition number_text (v : JsonValue) : string :=
  match _number_type v, _union v with
  | Some JsonNumberType.String, _ => number_string v
  | Some JsonNumberType.Int, int_value z => to_string z
  | Some JsonNumberType.Uint, uint_value z => to_string z
  | Some JsonNumberType.Int64, int64t_value z => to_string z
  | Some JsonNumberType.Uint64, uint64t_value z => to_string z
  | Some JsonNumberType.Double, double_value b => to_string_double b
  | Some JsonNumberType.Float, float_value b => to_string_float b
  | Some JsonNumberType.Int16, int16_value z => to_string z
  | _, _ => EmptyString
  end.

(** Null as null, Boolean as true or false, Number as its textual form,
    String between double quotes, Array bracketed and comma-separated,
    Object braced with comma-separated key:value pairs. *)
Fixpoint render (v : JsonValue) : string :=
  match _type v with
  | JsonValueType.Null => "null"
  | JsonValueType.Boolean =>
      match _boolean v with Some false => "false" | _ => "true" end
  | JsonValueType.Number => number_text v
  | JsonValueType.String => quoted (_string v)
  | JsonValueType.Array =>
      "[" ++ String.concat "," (List.map render (_array v)) ++ "]"
  | JsonValueType.Object =>
      "{" ++ String.concat ","
               (List.map (fun kv => quoted (fst kv) ++ ":" ++ render (snd kv))
                         (_object v)) ++ "}"
  end.

Definition render_member (kv : string * JsonValue) : string :=
  quoted (fst kv) ++ ":" ++ render (snd kv).

Definition render_document (doc : JsonDocument) : string :=
  "{" ++ String.concat "," (List.map render_member (_map doc)) ++ "}".

End Rendering.

(** The run of the serializer on the value is defined: the members it
    reads have been written (a Boolean has its [_boolean], a Number its
    subkind and, for a typed subkind, the matching union member), the
    number of elements or members fits the [int] counter, and so on for
    the elements and members the tag gives access to. *)
Definition number_initialised (v : JsonValue) : bool :=
  match _number_type v, _union v with
  | Some JsonNumberType.String, _ => true
  | Some JsonNumberType.Int, int_value _ => true
  | Some JsonNumberType.Uint, uint_value _ => true
  | Some JsonNumberType.Int64, int64t_value _ => true
  | Some JsonNumberType.Uint64, uint64t_value _ => true
  | Some JsonNumberType.Double, double_value _ => true
  | Some JsonNumberType.Float, float_value _ => true
  | Some JsonNumberType.Int16, int16_value _ => true
  | _, _ => false
  end.

Definition fits_int {A : Type} (l : list A) : bool :=
  (Z.of_nat (List.length l) <=? INT_MAX)%Z.

Fixpoint serializable (v : JsonValue) : bool :=
  match _type v with
  | JsonValueType.Null => true
  | JsonValueType.Boolean =>
      match _boolean v with Some _ => true | None => false end
  | JsonValueType.Number => number_initialised v
  | JsonValueType.String => true
  | JsonValueType.Array =>
      fits_int (_array v) && forallb serializable (_array v)
  | JsonValueType.Object =>
      fits_int (_object v)
      && forallb (fun kv => serializable (snd kv)) (_object v)
  end.

Definition serializable_document (doc : JsonDocument) : bool :=
  fits_int (_map doc) && forallb (fun kv => serializable (snd kv)) (_map doc).

(** The text starts with a decimal digit. *)
Definition digit_first (s : string) : bool :=
  match s with
  | String c _ => is_digit c
  | EmptyString => false
  end.

Definition contains (c : ascii) (s : string) : bool :=
  existsb (Ascii.eqb c) (list_ascii_of_string s).

(** Every value of the tree whose numeric subkind is raw text holds a
    text that starts with a digit. *)
Fixpoint raw_digit_first (v : JsonValue) : bool :=
  match _number_type v with
  | Some JsonNumberType.String => digit_first (number_string v)
  | _ => true
  end
  && forallb raw_digit_first (_array v)
  && forallb (fun kv => raw_digit_first (snd kv)) (_object v).

Definition raw_digit_first_members (m : members) : bool :=
  forallb (fun kv => raw_digit_first (snd kv)) m.

(** The members after a sequence of insertions. *)
Definition assign_all `{MapBackend} (writes : list (string * JsonValue))
    (m : members) : members :=
  fold_left (fun m kv => assign (fst kv) (snd kv) m) writes m.

(* ================================================================== *)
(** ** The ordered backend ([APOSA_JSON_USE_STDMAP]) *)

#[export, refine] Instance std_map : MapBackend := {| emplace := sorted_insert |}.
Proof.
  - intros key value m. induction m as [|[k v] m IH]; simpl.
    + apply Permutation_refl.
    + destruct (String.ltb key k).
      * apply Permutation_refl.
      * eapply perm_trans; [apply perm_skip, IH | apply perm_swap].
  - intros key value m key' Hne. apply String.eqb_neq in Hne.
    induction m as [|[k v] m IH]; simpl.
    + now rewrite Hne.
    + destruct (String.ltb key k); simpl.
      * now rewrite Hne.
      * now rewrite IH.
Defined.

(** A stand-in for the floating-point conversions, for running code that
    holds no [double] and no [float]. *)
Definition no_float_text : FloatText := {|
  stod := fun _ => Throw invalid_argument;
  stof := fun _ => Throw invalid_argument;
  to_string_double := fun _ => EmptyString;
  to_string_float := fun _ => EmptyString
|}.

(* ================================================================== *)
(** ** The loops and switches of the code, by name

    The loop inside [GenArray] and [GenObject], and the [switch] of
    [ParseValue], are given names so that lemmas can speak of them; each
    is shown below to be what the function runs. *)

Section SerializerLoops.
Context {FT : FloatText}.

(** The [switch (item.GetType())] of [GenArray] and [GenObject]. *)
Definition GenValue (tmp_str : string) (item : JsonValue) : outcome string :=
  match GetType item with
  | JsonValueType.Null => Ok (tmp_str ++ "null")
  | JsonValueType.Boolean =>
      b <- GetBoolean item ;; Ok (tmp_str ++ (if b then "true" else "false"))
  | JsonValueType.Number => s <- NumberText item ;; Ok (tmp_str ++ s)
  | JsonValueType.String =>
      Ok (tmp_str ++ (String dq EmptyString ++ GetString item ++ String dq EmptyString))
  | JsonValueType.Array => GenArray tmp_str item
  | JsonValueType.Object => GenObject tmp_str item
  end.

Section Loops.
Variable size : nat.

(** The loop of [GenArray] over the elements that remain. *)
Fixpoint GenArray_for (items : list JsonValue) (i : Z)
    (tmp_str : string) : outcome string :=
  match items with
  | [] => Ok tmp_str
  | item :: rest =>
      tmp_str <- GenValue tmp_str item ;;
      i <- preincrement i ;;
      let tmp_str := if (i <? Z.of_nat size)%Z then tmp_str ++ "," else tmp_str in
      GenArray_for rest i tmp_str
  end.

(** The loop of [GenObject] over the members that remain. *)
Fixpoint GenObject_for (ms : members) (i : Z)
    (tmp_str : string) : outcome string :=
  match ms with
  | [] => Ok tmp_str
  | (first, second) :: rest =>
      tmp_str <- GenValue (GenKey tmp_str first) second ;;
      i <- preincrement i ;;
      let tmp_str := if (i <? Z.of_nat size)%Z then tmp_str ++ "," else tmp_str in
      GenObject_for rest i tmp_str
  end.

End Loops.

End SerializerLoops.

Section ParserSwitch.
Context {B : MapBackend}.
Variable text : string.
Variable _it_end : nat.

(** The [switch] of [ParseValue] on the character under the cursor. *)
Definition ParseValue_switch (fuel : nat) (_it : nat) (c : ascii)
  : outcome (JsonValue * nat) :=
  if Ascii.eqb c "n" then
    Ok (JsonValue_of JsonValueType.Null, _it)
  else if Ascii.eqb c "t" || Ascii.eqb c "f" then
    '(b, _it) <- ParseBoolean text _it ;;
    Ok (SetBoolean b JsonValue_default, _it)
  else if Ascii.eqb c dq then
    '(s, _it) <- ParseString text _it ;;
    Ok (SetString s JsonValue_default, _it)
  else if Ascii.eqb c "[" then
    ParseArray text _it_end fuel _it
  else if Ascii.eqb c "{" then
    ParseObject text _it_end fuel _it
  else if is_digit c then
    '(s, _it) <- ParseNumber text _it_end _it ;;
    Ok (SetNumberString s (JsonValue_of JsonValueType.Number), _it)
  else
    ParseValue text _it_end fuel (S _it).

End ParserSwitch.

(* ================================================================== *)
(** ** Postconditions *)

(** [post Q r]: the run did not raise, and if it returned, the result
    satisfies [Q]. *)
Definition post {A : Type} (Q : A -> Prop) (r : outcome A) : Prop :=
  match r with
  | Ok a => Q a
  | Throw _ => False
  | Undefined _ => True
  | OutOfFuel => True
  end.

(** [r] is [r'], unless [r] ran out of fuel. *)
Definition settles {A : Type} (r r' : outcome A) : Prop :=
  r = OutOfFuel \/ r = r'.

(* ================================================================== *)
(** ** Trees and texts the code is run on *)

(** A raw-text Number holding [s], as the parser builds it. *)
Definition raw_number (s : string) : JsonValue :=
  SetNumberString s (JsonValue_of JsonValueType.Number).

(** The text of a document with the single member [key], whose value is
    written [value_text]. *)
Definition one_member_text (key value_text : string) : string :=
  "{" ++ quoted key ++ ":" ++ value_text ++ "}".

(** A document with a String, and an Array that holds a Boolean, a raw-text
    Number, a Null and a typed Number. *)
Definition sample_document : JsonDocument :=
  JsonDocument.AddMember "b"
    (AddElement (SetInt (-5) JsonValue_default)
       (AddElement (JsonValue_of JsonValueType.Null)
          (AddElement (raw_number "1")
             (AddElement (SetBoolean true JsonValue_default)
                (JsonValue_of JsonValueType.Array)))))
    (JsonDocument.AddMember "a" (SetString "x" JsonValue_default) JsonDocument_default).

(** The state in which the loop of [ParseJson] starts. *)
Definition ParseJson_start : ParseJson_state :=
  {| doc := JsonDocument_default; isKey := false; key_word := EmptyString; it := 1 |}.

Definition minus_first (s : string) : bool :=
  match s with
  | String c _ => Ascii.eqb c "-"
  | EmptyString => false
  end.

(** A member whose value is written [-1e-5], followed by a comma. *)
Definition minus_text : string := "{" ++ quoted "a" ++ ":-1e-5,}".

(** The text of the specification's example: the member [a] with the
    malformed literal [tru]. *)
Definition tru_text : string := one_member_text "a" "tru".

(** A text that ends in a comma after a number: the comma is the last
    character of the working range. *)
Definition unclosed_text : string := "{" ++ quoted "a" ++ ":1,".

(** A member whose value is written with white space inside and two
    decimal points, followed by a comma. *)
Definition unvalidated_text : string := "{" ++ quoted "a" ++ ":1 2.3.4 ,}".

(** The text of the specification's example: the key [a] twice. *)
Definition duplicate_key_text : string :=
  "{" ++ quoted "a" ++ ":1," ++ quoted "a" ++ ":2}".

(** A document with one member, the String [x] under [a]. *)
Definition string_document `{MapBackend} : JsonDocument :=
  JsonDocument.AddMember "a" (SetString "x" JsonValue_default) JsonDocument_default.

Definition string_document_text : string := one_member_text "a" (quoted "x").

(** An Array that holds a Null, as the one member of a document. *)
Definition null_array_document `{MapBackend} : JsonDocument :=
  JsonDocument.AddMember "a"
    (AddElement (JsonValue_of JsonValueType.Null)
       (JsonValue_of JsonValueType.Array))
    JsonDocument_default.

Definition null_array_text : string := one_member_text "a" "[null]".

(* ================================================================== *)
(** ** [JsonDocument::operator[]] and shapes of trees *)

(** [JsonValue& operator[](const std::string key) { return _map[key]; }]:
    the value the returned reference denotes, and the document after the
    access.  A key that is absent is inserted with a value-initialised
    [JsonValue]. *)
Definition operator_brackets `{MapBackend} (key : string) (doc : JsonDocument)
  : JsonValue * JsonDocument :=
  match find key (_map doc) with
  | Some v => (v, doc)
  | None =>
      (JsonValue_default,
       {| _map := emplace key JsonValue_default (_map doc) |})
  end.

(** The keys of a member mapping, in iteration order. *)
Definition keys (m : members) : list string := List.map fst m.

(** Every Boolean of the tree holds its [_boolean] and every Number is of
    the raw-text subkind. *)
Fixpoint well_tagged (v : JsonValue) : bool :=
  match _type v with
  | JsonValueType.Boolean =>
      match _boolean v with Some _ => true | None => false end
  | JsonValueType.Number =>
      match _number_type v with
      | Some JsonNumberType.String => true
      | _ => false
      end
  | _ => true
  end
  && forallb well_tagged (_array v)
  && forallb (fun kv => well_tagged (snd kv)) (_object v).

Definition well_tagged_members (m : members) : bool :=
  forallb (fun kv => well_tagged (snd kv)) m.

(** [v] after [AddElement] of each of the elements in turn, whatever [v]
    was before. *)
Definition add_elements (elements : list JsonValue) (v : JsonValue) : JsonValue :=
  fold_left (fun v e => AddElement e v) elements v.

(** An Array built by adding the elements in turn. *)
Definition array_of (elements : list JsonValue) : JsonValue :=
  fold_left (fun v e => AddElement e v) elements
            (JsonValue_of JsonValueType.Array).

(** The document with the one member [key], a Null. *)
Definition null_document `{MapBackend} (key : string) : JsonDocument :=
  JsonDocument.AddMember key (JsonValue_of JsonValueType.Null)
    JsonDocument_default.

(** The document with the one member [key], the String [s]. *)
Definition one_string_document `{MapBackend} (key s : string) : JsonDocument :=
  JsonDocument.AddMember key (SetString s JsonValue_default)
    JsonDocument_default.

Definition is_OutOfFuel {A : Type} (r : outcome A) : bool :=
  match r with OutOfFuel => true | _ => false end.

(** The run came to an end, and if it returned, the cursor it left is at
    [lo] or beyond. *)
Definition advances {A : Type} (lo : nat) (r : outcome (A * nat)) : Prop :=
  match r with
  | Ok (_, _it) => lo <= _it
  | OutOfFuel => False
  | _ => True
  end.

(** The number a sequence of decimal digits writes, onto [acc]. *)
Fixpoint digits_value (d : Decimal.uint) (acc : Z) : Z :=
  match d with
  | Decimal.Nil => acc
  | Decimal.D0 d => digits_value d (acc * 10 + 0)%Z
  | Decimal.D1 d => digits_value d (acc * 10 + 1)%Z
  | Decimal.D2 d => digits_value d (acc * 10 + 2)%Z
  | Decimal.D3 d => digits_value d (acc * 10 + 3)%Z
  | Decimal.D4 d => digits_value d (acc * 10 + 4)%Z
  | Decimal.D5 d => digits_value d (acc * 10 + 5)%Z
  | Decimal.D6 d => digits_value d (acc * 10 + 6)%Z
  | Decimal.D7 d => digits_value d (acc * 10 + 7)%Z
  | Decimal.D8 d => digits_value d (acc * 10 + 8)%Z
  | Decimal.D9 d => digits_value d (acc * 10 + 9)%Z
  end.

(** The String values that hold the texts of [ss]. *)
Definition string_values (ss : list string) : list JsonValue :=
  List.map (fun s => SetString s JsonValue_default) ss.

(** The document with the one member [key], an Array of Strings. *)
Definition strings_document `{MapBackend} (key : string) (ss : list string)
  : JsonDocument :=
  JsonDocument.AddMember key (array_of (string_values ss)) JsonDocument_default.

(** The texts of [ss] between double quotes, joined by commas, between
    brackets. *)
Definition strings_text (ss : list string) : string :=
  "[" ++ String.concat "," (List.map quoted ss) ++ "]".

Definition no_quote (s : string) : bool := negb (contains dq s).

(** A member whose value is the integer [z] in decimal, followed by a
    comma. *)
Definition integer_member_text (key : string) (z : Z) : string :=
  "{" ++ quoted key ++ ":" ++ to_string z ++ ",}".

(** An Object built by adding String members in turn. *)
Definition object_of `{MapBackend} (pairs : list (string * string)) : JsonValue :=
  fold_left (fun v ks => AddMember (fst ks) (SetString (snd ks) JsonValue_default) v)
            pairs (JsonValue_of JsonValueType.Object).

(** A key and a String, both between double quotes, with a colon between
    them. *)
Definition string_member_text (ks : string * string) : string :=
  quoted (fst ks) ++ ":" ++ quoted (snd ks).

(* ================================================================== *)
(** ** Induction on the value tree *)

Section JsonValue_induction.
Variable P : JsonValue -> Prop.
Hypothesis step :
  forall t nt u ns b s arr obj,
    Forall P arr -> Forall (fun kv => P (snd kv)) obj ->
    P (Build_JsonValue t nt u ns b s arr obj).

Fixpoint JsonValue_ind (v : JsonValue) : P v :=
  match v with
  | Build_JsonValue t nt u ns b s arr obj =>
      step t nt u ns b s arr obj
        ((fix elements (l : list JsonValue) : Forall P l :=
            match l with
            | [] => Forall_nil _
            | x :: l' => Forall_cons x (JsonValue_ind x) (elements l')
            end) arr)
        ((fix entries (l : list (string * JsonValue))
            : Forall (fun kv => P (snd kv)) l :=
            match l with
            | [] => Forall_nil _
            | kv :: l' => Forall_cons kv (JsonValue_ind (snd kv)) (entries l')
            end) obj)
  end.
End JsonValue_induction.

(* ================================================================== *)
(** * Properties *)

(** ** Strings *)

Lemma append_assoc (a b c : string) : (a ++ b) ++ c = a ++ (b ++ c).
Proof. induction a as [|x a IH]; simpl; [reflexivity | now rewrite IH]. Qed.

Lemma append_nil_r (a : string) : a ++ EmptyString = a.
Proof. induction a as [|x a IH]; simpl; [reflexivity | now rewrite IH]. Qed.

Lemma get_string_drop (n : nat) (s : string) (c : ascii) :
  String.get n s = Some c -> exists rest, string_drop n s = String c rest.
Proof.
  revert s. induction n as [|n IH]; intros [|x s]; simpl; try discriminate.
  - intros [= ->]. now exists s.
  - apply IH.
Qed.

(* ================================================================== *)
(** ** The value model *)

(** C10.  [SetNumberString] writes the numeric subkind (raw text) and the
    number text and leaves the type tag, like every other member, as it
    was; the typed numeric setters set the tag to Number.  A
    default-constructed value on which only [SetNumberString] was called
    still has type Null. *)
Theorem SetNumberString_leaves_type_tag :
  (forall (s : string) (v : JsonValue),
      GetType (SetNumberString s v) = GetType v
      /\ _number_type (SetNumberString s v) = Some JsonNumberType.String
      /\ GetNumberString (SetNumberString s v) = s
      /\ _union (SetNumberString s v) = _union v
      /\ _boolean (SetNumberString s v) = _boolean v
      /\ _string (SetNumberString s v) = _string v
      /\ _array (SetNumberString s v) = _array v
      /\ _object (SetNumberString s v) = _object v)
  /\ (forall (z : Z) (v : JsonValue),
      GetType (SetInt z v) = JsonValueType.Number
      /\ GetType (SetUint z v) = JsonValueType.Number
      /\ GetType (SetInt64 z v) = JsonValueType.Number
      /\ GetType (SetUint64 z v) = JsonValueType.Number
      /\ GetType (SetDouble z v) = JsonValueType.Number
      /\ GetType (SetFloat z v) = JsonValueType.Number
      /\ GetType (SetInt16 z v) = JsonValueType.Number)
  /\ (forall s : string,
      GetType (SetNumberString s JsonValue_default) = JsonValueType.Null).
Proof.
  split; [|split].
  - intros s v. repeat split.
  - intros z v. repeat split.
  - intros s. reflexivity.
Qed.

(** C3.  On a value whose numeric subkind is raw text every numeric getter
    converts the stored text on the call.  At the texts the specification
    names the getters return 42 and 18446744073709551615, and [GetInt]
    raises [out_of_range] on the latter; a text without digits raises
    [invalid_argument].  [GetInt16] and [GetUint] do otherwise: the
    range that is checked is that of [int] and of [unsigned long], and the
    narrowing in the [return] is silent. *)
Theorem raw_text_getters_at_examples :
  (forall (s : string) (v : JsonValue),
      GetInt (SetNumberString s v) = stoi s
      /\ GetInt64 (SetNumberString s v) = stoll s
      /\ GetUint64 (SetNumberString s v) = stoull s
      /\ GetInt16 (SetNumberString s v) = (z <- stoi s ;; Ok (to_signed 16 z))
      /\ GetUint (SetNumberString s v) = (z <- stoul s ;; Ok (to_unsigned 32 z)))
  /\ GetInt (raw_number "42") = Ok 42%Z
  /\ GetUint64 (raw_number "18446744073709551615") = Ok 18446744073709551615%Z
  /\ GetInt (raw_number "18446744073709551615") = Throw out_of_range
  /\ GetInt (raw_number "abc") = Throw invalid_argument
  /\ GetInt16 (raw_number "70000") = Ok 4464%Z
  /\ GetUint (raw_number "4294967296") = Ok 0%Z.
Proof.
  split; [intros s v; repeat split | repeat split; vm_compute; reflexivity].
Qed.

(* ================================================================== *)
(** ** The parser: literals and the root *)

(** C6.  With ['t'] under the cursor [ParseBoolean] returns true and moves
    the cursor 4 places on, with ['f'] false and 5 places; the result
    depends on no other character of the text, so whatever stands in the
    places skipped is passed over unread. *)
Theorem ParseBoolean_fixed_skip (text : string) (_it : nat) (c : ascii) :
  deref text _it = Ok c ->
  c = "t"%char \/ c = "f"%char ->
  ParseBoolean text _it
    = Ok (Ascii.eqb c "t", if Ascii.eqb c "t" then _it + 4 else _it + 5)
  /\ (forall text' : string,
        deref text' _it = Ok c -> ParseBoolean text' _it = ParseBoolean text _it).
Proof.
  intros Hc Htf. split.
  - unfold ParseBoolean. rewrite Hc. simpl.
    destruct Htf as [-> | ->]; reflexivity.
  - intros text' Hc'. unfold ParseBoolean. now rewrite Hc, Hc'.
Qed.

Lemma ParseBoolean_fixed_skip_witness :
  let text := one_member_text "a" "tru" in
  deref text 5 = Ok "t"%char
  /\ ParseBoolean text 5 = Ok (true, 9)
  /\ ParseBoolean (one_member_text "a" "t???") 5 = ParseBoolean text 5.
Proof.
  assert (H : deref (one_member_text "a" "tru") 5 = Ok "t"%char) by reflexivity.
  destruct (ParseBoolean_fixed_skip (one_member_text "a" "tru") 5 "t"%char H
              (or_introl eq_refl)) as [H1 H2].
  split; [exact H | split; [exact H1 | apply H2; reflexivity]].
Defined.

Section Root.
Context {B : MapBackend}.

(** C4.  [Parse] of the empty text and of the text of an empty object
    return an empty document, and so does [Parse] of every text whose
    first character is not the opening brace; none of them raises. *)
Theorem Parse_empty_document (fuel : nat) (c : ascii) (rest : string) :
  c <> "{"%char ->
  Parse fuel EmptyString = Ok JsonDocument_default
  /\ Parse fuel "{}" = Ok JsonDocument_default
  /\ JsonDocument.GetMember JsonDocument_default = []
  /\ Parse fuel (String c rest) = Ok JsonDocument_default.
Proof.
  intros Hc. repeat split.
  - destruct fuel; reflexivity.
  - apply Ascii.eqb_neq in Hc.
    unfold Parse, ParseJson, deref. cbn [String.get bind].
    now rewrite Hc.
Qed.

End Root.

Lemma Parse_empty_document_witness :
  "["%char <> "{"%char
  /\ Parse 0 "[1,2]" = Ok JsonDocument_default.
Proof.
  assert (H : "["%char <> "{"%char) by discriminate.
  split; [exact H|].
  exact (proj2 (proj2 (proj2 (Parse_empty_document 0 "["%char "1,2]" H)))).
Defined.

(* ================================================================== *)
(** ** The serializer *)

Section SerializerProperties.
Context {FT : FloatText}.

Lemma GenArray_unfold (tmp_str : string) (value : JsonValue) :
  GenArray tmp_str value
  = (t <- GenArray_for (List.length (GetArray value)) (GetArray value) 0%Z
            (tmp_str ++ "[") ;;
     Ok (t ++ "]")).
Proof. destruct value. reflexivity. Qed.

Lemma GenObject_unfold (tmp_str : string) (obj : JsonValue) :
  GenObject tmp_str obj
  = (t <- GenObject_for (List.length (GetObject obj)) (GetObject obj) 0%Z
            (tmp_str ++ "{") ;;
     Ok (t ++ "}")).
Proof. destruct obj. reflexivity. Qed.

(** [SerializeObject] treats a member as [GenObject] does: in each case of
    its switch the key comes first. *)
Lemma SerializeObject_unfold (doc : JsonDocument) :
  SerializeObject doc
  = (t <- GenObject_for (List.length (JsonDocument.GetMember doc))
            (JsonDocument.GetMember doc) 0%Z "{" ;;
     Ok (t ++ "}")).
Proof.
  unfold SerializeObject. simpl (EmptyString ++ "{").
  generalize (List.length (JsonDocument.GetMember doc)) as size.
  generalize "{" as tmp. generalize 0%Z as i.
  induction (JsonDocument.GetMember doc) as [|[first second] rest IH]; intros i tmp size.
  - reflexivity.
  - cbn [GenObject_for].
    assert (Hswitch :
      match GetType second with
      | JsonValueType.Null => Ok (GenKey tmp first ++ "null")
      | JsonValueType.Boolean =>
          b <- GetBoolean second ;;
          Ok (GenKey tmp first ++ (if b then "true" else "false"))
      | JsonValueType.Number =>
          s <- NumberText second ;; Ok (GenKey tmp first ++ s)
      | JsonValueType.String =>
          Ok (((GenKey tmp first ++ String dq EmptyString) ++ GetString second)
                ++ String dq EmptyString)
      | JsonValueType.Array => GenArray (GenKey tmp first) second
      | JsonValueType.Object => GenObject (GenKey tmp first) second
      end = GenValue (GenKey tmp first) second).
    { unfold GenValue. destruct (GetType second); try reflexivity.
      now rewrite !append_assoc. }
    rewrite <- Hswitch.
    destruct (match GetType second with
              | JsonValueType.Null => _ | _ => _ end) as [t| | |]; try reflexivity.
    cbn [bind]. destruct (preincrement i) as [j| | |]; try reflexivity.
    cbn [bind]. apply IH.
Qed.

(** What [NumberText] and [GenValue] give for a leaf. *)
Lemma NumberText_initialised (v : JsonValue) :
  number_initialised v = true -> NumberText v = Ok (number_text v).
Proof.
  unfold number_initialised, NumberText, number_text, GetNumberType,
    GetInt, GetUint, GetInt64, GetUint64, GetDouble, GetFloat, GetInt16,
    get_number, GetNumberType, GetNumberString.
  destruct (_number_type v) as [[]|]; try discriminate;
    destruct (_union v); try discriminate; reflexivity.
Qed.

Lemma GenKey_render_member (tmp key : string) (v : JsonValue) :
  GenKey tmp key ++ render v = tmp ++ render_member (key, v).
Proof.
  unfold GenKey, render_member, quoted. simpl.
  rewrite !append_assoc. simpl. rewrite !append_assoc. reflexivity.
Qed.

(** *** The counter *)

Lemma INT_MAX_nonneg : (0 <= INT_MAX)%Z.
Proof. discriminate. Qed.

Lemma preincrement_Ok (i : Z) :
  (i < INT_MAX)%Z -> preincrement i = Ok (i + 1)%Z.
Proof. intros H. unfold preincrement. apply Z.ltb_lt in H. now rewrite H. Qed.

Lemma preincrement_inv (i j : Z) :
  preincrement i = Ok j -> (i < INT_MAX)%Z /\ j = (i + 1)%Z.
Proof.
  unfold preincrement. destruct (i <? INT_MAX)%Z eqn:E; [|discriminate].
  intros [= <-]. apply Z.ltb_lt in E. now split.
Qed.

Lemma fits_int_le {A : Type} (l : list A) :
  fits_int l = true <-> (Z.of_nat (List.length l) <= INT_MAX)%Z.
Proof. apply Z.leb_le. Qed.

(** The counter places a comma after every element but the last: the loop
    appends the elements joined by commas. *)
Lemma GenArray_for_concat (size : nat) (items : list JsonValue) :
  Forall (fun v => serializable v = true ->
                   forall tmp, GenValue tmp v = Ok (tmp ++ render v)) items ->
  forallb serializable items = true ->
  (Z.of_nat size <= INT_MAX)%Z ->
  forall (i : Z) (tmp : string),
    (i + Z.of_nat (List.length items) = Z.of_nat size)%Z ->
    GenArray_for size items i tmp
    = Ok (tmp ++ String.concat "," (List.map render items)).
Proof.
  intros Hall Hinit Hfits. revert Hinit.
  induction Hall as [|item rest Hitem _ IH]; intros Hinit i tmp Hsize.
  - simpl. now rewrite append_nil_r.
  - simpl in Hinit. apply andb_true_iff in Hinit as [Hi Hrest].
    cbn [GenArray_for]. rewrite (Hitem Hi tmp). cbn [bind].
    cbn [List.length] in Hsize.
    rewrite preincrement_Ok by lia. cbn [bind].
    destruct rest as [|item' rest'].
    + replace (i + 1 <? Z.of_nat size)%Z with false
        by (symmetry; apply Z.ltb_ge; simpl in Hsize; lia).
      reflexivity.
    + replace (i + 1 <? Z.of_nat size)%Z with true
        by (symmetry; apply Z.ltb_lt; cbn [List.length] in Hsize; lia).
      rewrite (IH Hrest (i + 1)%Z) by lia.
      cbn [List.map String.concat]. now rewrite !append_assoc.
Qed.

Lemma GenObject_for_concat (size : nat) (ms : members) :
  Forall (fun kv => serializable (snd kv) = true ->
                    forall tmp, GenValue tmp (snd kv) = Ok (tmp ++ render (snd kv))) ms ->
  forallb (fun kv => serializable (snd kv)) ms = true ->
  (Z.of_nat size <= INT_MAX)%Z ->
  forall (i : Z) (tmp : string),
    (i + Z.of_nat (List.length ms) = Z.of_nat size)%Z ->
    GenObject_for size ms i tmp
    = Ok (tmp ++ String.concat "," (List.map render_member ms)).
Proof.
  intros Hall Hinit Hfits. revert Hinit.
  induction Hall as [|[key v] rest Hitem _ IH]; intros Hinit i tmp Hsize.
  - simpl. now rewrite append_nil_r.
  - simpl in Hinit. apply andb_true_iff in Hinit as [Hi Hrest].
    cbn [GenObject_for]. simpl in Hitem. rewrite (Hitem Hi (GenKey tmp key)).
    cbn [bind]. rewrite GenKey_render_member.
    cbn [List.length] in Hsize.
    rewrite preincrement_Ok by lia. cbn [bind].
    destruct rest as [|kv' rest'].
    + replace (i + 1 <? Z.of_nat size)%Z with false
        by (symmetry; apply Z.ltb_ge; simpl in Hsize; lia).
      reflexivity.
    + replace (i + 1 <? Z.of_nat size)%Z with true
        by (symmetry; apply Z.ltb_lt; cbn [List.length] in Hsize; lia).
      rewrite (IH Hrest (i + 1)%Z) by lia.
      cbn [List.map String.concat]. now rewrite !append_assoc.
Qed.

(** Every value is appended as the specification renders it. *)
Lemma GenValue_render (v : JsonValue) :
  serializable v = true -> forall tmp, GenValue tmp v = Ok (tmp ++ render v).
Proof.
  induction v as [t nt u ns b s arr obj IHarr IHobj] using JsonValue_ind.
  destruct t; intros Hinit tmp; unfold GenValue; cbn [GetType _type].
  - reflexivity.
  - simpl in Hinit. unfold GetBoolean. simpl in *.
    destruct b as [[]|]; try discriminate; reflexivity.
  - simpl in Hinit. rewrite (NumberText_initialised _ Hinit). reflexivity.
  - reflexivity.
  - simpl in Hinit. apply andb_true_iff in Hinit as [Hfits Hinit].
    apply fits_int_le in Hfits. rewrite GenArray_unfold.
    rewrite (GenArray_for_concat _ _ IHarr Hinit Hfits) by reflexivity.
    cbn [bind]. simpl. now rewrite !append_assoc.
  - simpl in Hinit. apply andb_true_iff in Hinit as [Hfits Hinit].
    apply fits_int_le in Hfits. rewrite GenObject_unfold.
    rewrite (GenObject_for_concat _ _ IHobj Hinit Hfits) by reflexivity.
    cbn [bind]. simpl. now rewrite !append_assoc.
Qed.

(** *** A serializer that returns had a defined run *)

Lemma bind_Ok_inv {A C : Type} (m : outcome A) (k : A -> outcome C) (c : C) :
  bind m k = Ok c -> exists a, m = Ok a /\ k a = Ok c.
Proof. destruct m as [a| | |]; simpl; try discriminate. intros H. now exists a. Qed.

Lemma NumberText_Ok (v : JsonValue) (s : string) :
  NumberText v = Ok s -> number_initialised v = true.
Proof.
  unfold number_initialised, NumberText, GetNumberType,
    GetInt, GetUint, GetInt64, GetUint64, GetDouble, GetFloat, GetInt16,
    get_number, GetNumberType.
  destruct (_number_type v) as [[]|]; simpl; try discriminate;
    destruct (_union v); simpl; try discriminate; reflexivity.
Qed.

Lemma GenArray_for_Ok (size : nat) (items : list JsonValue) :
  Forall (fun v => forall tmp s, GenValue tmp v = Ok s -> serializable v = true)
         items ->
  forall (i : Z) (tmp s : string),
    (i <= INT_MAX)%Z ->
    GenArray_for size items i tmp = Ok s ->
    forallb serializable items = true
    /\ (i + Z.of_nat (List.length items) <= INT_MAX)%Z.
Proof.
  induction 1 as [|item rest Hitem _ IH]; intros i tmp s Hi Hs.
  - simpl. split; [reflexivity | lia].
  - cbn [GenArray_for] in Hs. apply bind_Ok_inv in Hs as (t & Ht & Hs).
    apply bind_Ok_inv in Hs as (j & Hj & Hs).
    apply preincrement_inv in Hj as [Hlt ->].
    assert (Hj : (i + 1 <= INT_MAX)%Z) by lia.
    destruct (IH _ _ _ Hj Hs) as [Hrest Hlen].
    cbn [forallb List.length]. rewrite (Hitem _ _ Ht), Hrest.
    split; [reflexivity | lia].
Qed.

Lemma GenObject_for_Ok (size : nat) (ms : members) :
  Forall (fun kv => forall tmp s, GenValue tmp (snd kv) = Ok s ->
                                  serializable (snd kv) = true) ms ->
  forall (i : Z) (tmp s : string),
    (i <= INT_MAX)%Z ->
    GenObject_for size ms i tmp = Ok s ->
    forallb (fun kv => serializable (snd kv)) ms = true
    /\ (i + Z.of_nat (List.length ms) <= INT_MAX)%Z.
Proof.
  induction 1 as [|[key v] rest Hitem _ IH]; intros i tmp s Hi Hs.
  - simpl. split; [reflexivity | lia].
  - cbn [GenObject_for] in Hs. apply bind_Ok_inv in Hs as (t & Ht & Hs).
    apply bind_Ok_inv in Hs as (j & Hj & Hs).
    apply preincrement_inv in Hj as [Hlt ->].
    assert (Hj : (i + 1 <= INT_MAX)%Z) by lia.
    destruct (IH _ _ _ Hj Hs) as [Hrest Hlen].
    cbn [forallb List.length snd] in *. rewrite (Hitem _ _ Ht), Hrest.
    split; [reflexivity | lia].
Qed.

Lemma GenValue_Ok (v : JsonValue) :
  forall tmp s, GenValue tmp v = Ok s -> serializable v = true.
Proof.
  induction v as [t nt u ns b s0 arr obj IHarr IHobj] using JsonValue_ind.
  destruct t; intros tmp s; unfold GenValue; cbn [GetType _type]; intros Hs.
  - reflexivity.
  - apply bind_Ok_inv in Hs as (x & Hx & _). unfold GetBoolean in Hx.
    simpl in *. now destruct b.
  - apply bind_Ok_inv in Hs as (x & Hx & _). simpl.
    exact (NumberText_Ok _ _ Hx).
  - reflexivity.
  - rewrite GenArray_unfold in Hs. apply bind_Ok_inv in Hs as (x & Hx & _).
    destruct (GenArray_for_Ok _ _ IHarr _ _ _ INT_MAX_nonneg Hx) as [Hall Hlen].
    cbn [serializable _type _array _object GetArray GetObject] in *.
    apply andb_true_iff. split; [apply fits_int_le; lia | exact Hall].
  - rewrite GenObject_unfold in Hs. apply bind_Ok_inv in Hs as (x & Hx & _).
    destruct (GenObject_for_Ok _ _ IHobj _ _ _ INT_MAX_nonneg Hx) as [Hall Hlen].
    cbn [serializable _type _array _object GetArray GetObject] in *.
    apply andb_true_iff. split; [apply fits_int_le; lia | exact Hall].
Qed.

(** C8.  [SerializeObject] produces the minified rendering: the members in
    the iteration order of the mapping, each as its quoted key, a colon and
    its value, joined by commas between braces; a value as [render] gives
    it, with nothing inserted.  It does so for every document on which its
    run is defined (the members it reads have been written, the sizes fit
    the counter); for no other document does it return a text. *)
Theorem SerializeObject_renders (doc : JsonDocument) :
  (serializable_document doc = true ->
   SerializeObject doc = Ok (render_document doc))
  /\ (forall s : string,
        SerializeObject doc = Ok s ->
        serializable_document doc = true /\ s = render_document doc).
Proof.
  assert (Hrender : serializable_document doc = true ->
                    SerializeObject doc = Ok (render_document doc)).
  { intros Hinit. apply andb_true_iff in Hinit as [Hfits Hinit].
    apply fits_int_le in Hfits. rewrite SerializeObject_unfold.
    rewrite (GenObject_for_concat (List.length (JsonDocument.GetMember doc))
               (JsonDocument.GetMember doc));
      try reflexivity; try assumption.
    apply Forall_forall. intros kv _ Hkv tmp. now apply GenValue_render. }
  split; [exact Hrender|].
  intros s Hs.
  assert (Hinit : serializable_document doc = true).
  { rewrite SerializeObject_unfold in Hs.
    apply bind_Ok_inv in Hs as (x & Hx & _).
    assert (Hall : Forall (fun kv => forall tmp s, GenValue tmp (snd kv) = Ok s ->
                                     serializable (snd kv) = true)
                          (JsonDocument.GetMember doc)).
    { apply Forall_forall. intros kv _. apply GenValue_Ok. }
    destruct (GenObject_for_Ok _ _ Hall _ _ _ INT_MAX_nonneg Hx) as [Hm Hlen].
    apply andb_true_iff.
    split; [apply fits_int_le; unfold JsonDocument.GetMember in Hlen; lia | exact Hm]. }
  split; [exact Hinit|].
  rewrite (Hrender Hinit) in Hs. now injection Hs.
Qed.

End SerializerProperties.

(* ================================================================== *)
(** ** Postconditions of parser runs *)

Lemma post_bind {A B : Type} (Q' : A -> Prop) (Q : B -> Prop)
    (m : outcome A) (k : A -> outcome B) :
  post Q' m -> (forall a, Q' a -> post Q (k a)) -> post Q (bind m k).
Proof. destruct m; simpl; auto. Qed.

Lemma post_weaken {A : Type} (Q Q' : A -> Prop) (r : outcome A) :
  post Q r -> (forall a, Q a -> Q' a) -> post Q' r.
Proof. destruct r; simpl; auto. Qed.

Lemma post_not_Throw {A : Type} (Q : A -> Prop) (r : outcome A) :
  post Q r -> is_Throw r = false.
Proof. destruct r; simpl; intros; [reflexivity | contradiction | reflexivity ..]. Qed.

Lemma post_Ok {A : Type} (Q : A -> Prop) (r : outcome A) (a : A) :
  post Q r -> r = Ok a -> Q a.
Proof. intros H ->. exact H. Qed.

(** *** Digits *)

Lemma is_digit_not_delimiter (c : ascii) :
  is_digit c = true ->
  Ascii.eqb c "," = false /\ Ascii.eqb c "}" = false /\ isspace c = false
  /\ Ascii.eqb c "-" = false.
Proof.
  destruct c as [[] [] [] [] [] [] [] []]; vm_compute; intros H;
    try discriminate H; repeat split.
Qed.

(** *** [raw_digit_first] under the operations of the value model *)

Lemma raw_digit_first_raw_number (s : string) :
  digit_first s = true ->
  raw_digit_first (SetNumberString s (JsonValue_of JsonValueType.Number)) = true.
Proof. intros H. simpl. now rewrite H. Qed.

Lemma raw_digit_first_AddElement (e v : JsonValue) :
  raw_digit_first e = true -> raw_digit_first v = true ->
  raw_digit_first (AddElement e v) = true.
Proof.
  intros He Hv. destruct v as [t nt u ns b s arr obj]. simpl in *.
  apply andb_true_iff in Hv as [Hv Hobj]. apply andb_true_iff in Hv as [Hn Harr].
  rewrite Hn, Hobj, forallb_app, Harr. simpl. now rewrite He.
Qed.

Section AssignProperties.
Context {B : MapBackend}.
Variable f : JsonValue -> bool.

Lemma forallb_replace (key : string) (value : JsonValue) (m : members) :
  f value = true ->
  forallb (fun kv => f (snd kv)) m = true ->
  forallb (fun kv => f (snd kv)) (replace key value m) = true.
Proof.
  intros Hv. induction m as [|[k v] m IH]; simpl; [reflexivity|].
  intros H. apply andb_true_iff in H as [H1 H2].
  destruct (String.eqb key k); simpl.
  - now rewrite Hv, H2.
  - now rewrite H1, IH.
Qed.

Lemma forallb_emplace (key : string) (value : JsonValue) (m : members) :
  f value = true ->
  forallb (fun kv => f (snd kv)) m = true ->
  forallb (fun kv => f (snd kv)) (emplace key value m) = true.
Proof.
  intros Hv Hm. apply forallb_forall. intros kv Hin.
  apply (Permutation_in _ (emplace_Permutation key value m)) in Hin.
  destruct Hin as [<- | Hin]; [exact Hv|].
  now apply (proj1 (forallb_forall _ _) Hm).
Qed.

Lemma forallb_assign (key : string) (value : JsonValue) (m : members) :
  f value = true ->
  forallb (fun kv => f (snd kv)) m = true ->
  forallb (fun kv => f (snd kv)) (assign key value m) = true.
Proof.
  intros Hv Hm. unfold assign.
  destruct (find key m); [now apply forallb_replace | now apply forallb_emplace].
Qed.

End AssignProperties.

Lemma raw_digit_first_AddMember {B : MapBackend} (key : string)
    (value v : JsonValue) :
  raw_digit_first value = true -> raw_digit_first v = true ->
  raw_digit_first (AddMember key value v) = true.
Proof.
  intros He Hv. destruct v as [t nt u ns b s arr obj]. simpl in *.
  apply andb_true_iff in Hv as [Hv Hobj]. apply andb_true_iff in Hv as [Hn Harr].
  rewrite Hn, Harr. simpl.
  now apply (forallb_assign raw_digit_first).
Qed.

(* ================================================================== *)
(** ** The parser raises no conversion error, and its raw numbers start
    with a digit *)

Section ParserInvariant.
Context {B : MapBackend}.
Variable text : string.
Variable _it_end : nat.

Abbreviation value_post :=
  (post (fun p : JsonValue * nat => raw_digit_first (fst p) = true)).

Lemma deref_cases (_it : nat) :
  (exists c, String.get _it text = Some c /\ deref text _it = Ok c)
  \/ deref text _it = Undefined OutOfBounds.
Proof.
  unfold deref. destruct (String.get _it text) as [c|]; [left; now exists c | now right].
Qed.

Lemma ParseString_while_post (rest : string) (_it : nat) (cache : string) :
  post (fun _ => True) (ParseString_while rest _it cache).
Proof.
  revert _it cache. induction rest as [|c rest IH]; intros _it cache; simpl.
  - exact I.
  - destruct (Ascii.eqb c dq); [exact I | apply IH].
Qed.

Lemma ParseString_post (_it : nat) :
  post (fun _ => True) (ParseString text _it).
Proof.
  unfold ParseString.
  apply (post_bind (fun _ => True)); [apply ParseString_while_post|].
  intros [cache it'] _. exact I.
Qed.

Lemma ParseBoolean_post (_it : nat) :
  post (fun _ => True) (ParseBoolean text _it).
Proof.
  unfold ParseBoolean.
  destruct (deref_cases _it) as [(c & _ & ->) | ->]; simpl; [|exact I].
  destruct (Ascii.eqb c "t"); exact I.
Qed.

(** The loop of [ParseNumber] only appends to [cache]. *)
Lemma ParseNumber_while_post (rest : string) (_it : nat) (cache : string) :
  post (fun p => exists suffix, fst p = cache ++ suffix)
       (ParseNumber_while _it_end rest _it cache).
Proof.
  revert _it cache. induction rest as [|c rest IH]; intros _it cache; simpl.
  - exact I.
  - destruct (negb (Ascii.eqb c ",") || (_it =? _it_end)%nat).
    + destruct (Ascii.eqb c "}"); simpl.
      * exists EmptyString. now rewrite append_nil_r.
      * eapply post_weaken; [apply IH|].
        intros [c' it'] [suffix Hs]. simpl in *.
        exists (String c suffix). rewrite Hs. unfold push_back.
        now rewrite append_assoc.
    + simpl. exists EmptyString. now rewrite append_nil_r.
Qed.

(** Called on a digit, [ParseNumber] returns a text that starts with it. *)
Lemma ParseNumber_post (_it : nat) (c : ascii) :
  String.get _it text = Some c -> is_digit c = true ->
  post (fun p => digit_first (fst p) = true) (ParseNumber text _it_end _it).
Proof.
  intros Hget Hdigit.
  destruct (is_digit_not_delimiter c Hdigit) as (Hcomma & Hbrace & Hspace & _).
  destruct (get_string_drop _ _ _ Hget) as [rest Hdrop].
  unfold ParseNumber. rewrite Hdrop. cbn [ParseNumber_while].
  rewrite Hcomma, Hbrace. cbn [negb orb].
  eapply post_bind; [apply ParseNumber_while_post|].
  intros [cache it'] [suffix Hs]. cbn [fst] in Hs. subst cache.
  cbn [post fst push_back append erase_spaces]. rewrite Hspace.
  exact Hdigit.
Qed.

Lemma ParseValue_O (_it : nat) :
  ParseValue text _it_end O _it
  = if (_it =? _it_end)%nat then Ok (JsonValue_default, _it) else OutOfFuel.
Proof. reflexivity. Qed.

Lemma ParseValue_S (fuel : nat) (_it : nat) :
  ParseValue text _it_end (S fuel) _it
  = if (_it =? _it_end)%nat then Ok (JsonValue_default, _it)
    else c <- deref text _it ;; ParseValue_switch text _it_end fuel _it c.
Proof. reflexivity. Qed.

Lemma ParseArray_S (fuel : nat) (_it : nat) :
  ParseArray text _it_end (S fuel) _it
  = ParseArray_while text _it_end fuel (JsonValue_of JsonValueType.Array) (S _it).
Proof. reflexivity. Qed.

Lemma ParseArray_while_S (fuel : nat) (value : JsonValue) (_it : nat) :
  ParseArray_while text _it_end (S fuel) value _it
  = (c <- deref text _it ;;
     if Ascii.eqb c "]" then Ok (value, _it)
     else if is_separator c then ParseArray_while text _it_end fuel value (S _it)
     else
       '(element, _it) <- ParseValue text _it_end fuel _it ;;
       ParseArray_while text _it_end fuel (AddElement element value) _it).
Proof. reflexivity. Qed.

Lemma ParseObject_S (fuel : nat) (_it : nat) :
  ParseObject text _it_end (S fuel) _it
  = ('(refValue, _it) <-
       ParseObject_while text _it_end fuel (JsonValue_of JsonValueType.Object) (S _it) ;;
     Ok (refValue, S _it)).
Proof. reflexivity. Qed.

Lemma ParseObject_while_S (fuel : nat) (refValue : JsonValue) (_it : nat) :
  ParseObject_while text _it_end (S fuel) refValue _it
  = (c <- deref text _it ;;
     if Ascii.eqb c "}" then Ok (refValue, _it)
     else if is_separator c then ParseObject_while text _it_end fuel refValue (S _it)
     else
       '(key, _it) <- ParseString text _it ;;
       '(value, _it) <- ParseValue text _it_end fuel _it ;;
       ParseObject_while text _it_end fuel (AddMember key value refValue) _it).
Proof. reflexivity. Qed.

Lemma Parse_functions_post (fuel : nat) :
  (forall _it, value_post (ParseValue text _it_end fuel _it))
  /\ (forall _it, value_post (ParseArray text _it_end fuel _it))
  /\ (forall value _it, raw_digit_first value = true ->
        value_post (ParseArray_while text _it_end fuel value _it))
  /\ (forall _it, value_post (ParseObject text _it_end fuel _it))
  /\ (forall refValue _it, raw_digit_first refValue = true ->
        value_post (ParseObject_while text _it_end fuel refValue _it)).
Proof.
  induction fuel as [|fuel (IHv & IHa & IHaw & IHo & IHow)].
  - repeat split; intros; try exact I.
    rewrite ParseValue_O. destruct (_it =? _it_end)%nat; [reflexivity | exact I].
  - repeat split.
    + intros _it. rewrite ParseValue_S.
      destruct (_it =? _it_end)%nat; [reflexivity|].
      destruct (deref_cases _it) as [(c & Hget & ->) | ->]; [|exact I].
      cbn [bind]. unfold ParseValue_switch.
      destruct (Ascii.eqb c "n"); [reflexivity|].
      destruct (Ascii.eqb c "t" || Ascii.eqb c "f").
      { eapply post_bind; [apply ParseBoolean_post|].
        intros [b it'] _. reflexivity. }
      destruct (Ascii.eqb c dq).
      { eapply post_bind; [apply ParseString_post|].
        intros [s it'] _. reflexivity. }
      destruct (Ascii.eqb c "["); [apply IHa|].
      destruct (Ascii.eqb c "{"); [apply IHo|].
      destruct (is_digit c) eqn:Hdigit; [|apply IHv].
      eapply post_bind; [apply (ParseNumber_post _ _ Hget Hdigit)|].
      intros [s it'] Hs. simpl in Hs |- *. now rewrite Hs.
    + intros _it. rewrite ParseArray_S. now apply IHaw.
    + intros value _it Hvalue. rewrite ParseArray_while_S.
      destruct (deref_cases _it) as [(c & Hget & ->) | ->]; [|exact I].
      cbn [bind].
      destruct (Ascii.eqb c "]"); [exact Hvalue|].
      destruct (is_separator c); [now apply IHaw|].
      eapply post_bind; [apply IHv|].
      intros [element it'] He. apply IHaw.
      now apply raw_digit_first_AddElement.
    + intros _it. rewrite ParseObject_S.
      eapply post_bind; [now apply IHow|].
      intros [refValue it'] Hr. exact Hr.
    + intros refValue _it Hvalue. rewrite ParseObject_while_S.
      destruct (deref_cases _it) as [(c & Hget & ->) | ->]; [|exact I].
      cbn [bind].
      destruct (Ascii.eqb c "}"); [exact Hvalue|].
      destruct (is_separator c); [now apply IHow|].
      eapply post_bind; [apply ParseString_post|].
      intros [key it'] _.
      eapply post_bind; [apply IHv|].
      intros [value it''] Hv. apply IHow.
      now apply raw_digit_first_AddMember.
Qed.

Abbreviation doc_post :=
  (post (fun st : ParseJson_state =>
           raw_digit_first_members (_map (doc st)) = true)).

Lemma JsonDocument_AddMember_raw_digit_first (key : string) (value : JsonValue)
    (d : JsonDocument) :
  raw_digit_first value = true ->
  raw_digit_first_members (_map d) = true ->
  raw_digit_first_members (_map (JsonDocument.AddMember key value d)) = true.
Proof. intros Hv Hd. now apply (forallb_assign raw_digit_first). Qed.

Lemma ParseJson_body_post (fuel : nat) (st : ParseJson_state) :
  raw_digit_first_members (_map (doc st)) = true ->
  doc_post (ParseJson_body text _it_end fuel st).
Proof.
  intros Hst. unfold ParseJson_body.
  destruct (deref_cases (it st)) as [(c & Hget & ->) | ->]; [|exact I].
  cbn [bind].
  destruct (Ascii.eqb c "n").
  { simpl. now apply JsonDocument_AddMember_raw_digit_first. }
  destruct (Ascii.eqb c "t" || Ascii.eqb c "f").
  { eapply post_bind; [apply ParseBoolean_post|].
    intros [b it'] _. simpl. now apply JsonDocument_AddMember_raw_digit_first. }
  destruct (Ascii.eqb c dq).
  { destruct (negb (isKey st)).
    - eapply post_bind; [apply ParseString_post|].
      intros [s it'] _. exact Hst.
    - eapply post_bind; [apply ParseString_post|].
      intros [s it'] _. simpl. now apply JsonDocument_AddMember_raw_digit_first. }
  destruct (Ascii.eqb c "[").
  { eapply post_bind; [apply (proj1 (proj2 (Parse_functions_post fuel)))|].
    intros [value it'] Hv. simpl. now apply JsonDocument_AddMember_raw_digit_first. }
  destruct (Ascii.eqb c "{").
  { eapply post_bind;
      [apply (proj1 (proj2 (proj2 (proj2 (Parse_functions_post fuel)))))|].
    intros [value it'] Hv. simpl. now apply JsonDocument_AddMember_raw_digit_first. }
  destruct (is_digit c) eqn:Hdigit; [|exact Hst].
  eapply post_bind; [apply (ParseNumber_post _ _ Hget Hdigit)|].
  intros [s it'] Hs. simpl. apply JsonDocument_AddMember_raw_digit_first; [|exact Hst].
  now apply raw_digit_first_raw_number.
Qed.

Lemma ParseJson_for_post (fuel : nat) (st : ParseJson_state) :
  raw_digit_first_members (_map (doc st)) = true ->
  post (fun d => raw_digit_first_members (_map d) = true)
       (ParseJson_for text _it_end fuel st).
Proof.
  revert st. induction fuel as [|fuel IH]; intros st Hst; simpl.
  - destruct (it st =? _it_end)%nat; [exact Hst | exact I].
  - destruct (it st =? _it_end)%nat; [exact Hst|].
    unfold ParseJson_turn.
    apply (post_bind
             (fun st => raw_digit_first_members (_map (doc st)) = true)).
    + eapply post_bind; [apply (ParseJson_body_post fuel st Hst)|].
      intros st' Hst'. exact Hst'.
    + intros st' Hst'. now apply IH.
Qed.

(** *** More fuel does not change a result *)

Lemma settles_refl {A : Type} (r : outcome A) : settles r r.
Proof. now right. Qed.

Lemma settles_bind {A C : Type} (m m' : outcome A) (k k' : A -> outcome C) :
  settles m m' -> (forall a, settles (k a) (k' a)) ->
  settles (bind m k) (bind m' k').
Proof.
  intros [-> | ->] Hk; [now left|].
  destruct m' as [a| | |]; simpl; [apply Hk | now right ..].
Qed.

Lemma Parse_functions_fuel (fuel : nat) :
  forall fuel' : nat, fuel <= fuel' ->
  (forall _it, settles (ParseValue text _it_end fuel _it)
                       (ParseValue text _it_end fuel' _it))
  /\ (forall _it, settles (ParseArray text _it_end fuel _it)
                          (ParseArray text _it_end fuel' _it))
  /\ (forall value _it, settles (ParseArray_while text _it_end fuel value _it)
                                (ParseArray_while text _it_end fuel' value _it))
  /\ (forall _it, settles (ParseObject text _it_end fuel _it)
                          (ParseObject text _it_end fuel' _it))
  /\ (forall value _it, settles (ParseObject_while text _it_end fuel value _it)
                                (ParseObject_while text _it_end fuel' value _it)).
Proof.
  induction fuel as [|fuel IH]; intros fuel' Hle.
  - repeat split; intros; try (now left).
    rewrite ParseValue_O. destruct fuel' as [|fuel'].
    + apply settles_refl.
    + rewrite ParseValue_S. destruct (_it =? _it_end)%nat; [now right | now left].
  - destruct fuel' as [|fuel']; [lia|].
    destruct (IH fuel' ltac:(lia)) as (IHv & IHa & IHaw & IHo & IHow).
    repeat split.
    + intros _it. rewrite !ParseValue_S.
      destruct (_it =? _it_end)%nat; [apply settles_refl|].
      apply settles_bind; [apply settles_refl|].
      intros c. unfold ParseValue_switch.
      destruct (Ascii.eqb c "n"); [apply settles_refl|].
      destruct (Ascii.eqb c "t" || Ascii.eqb c "f"); [apply settles_refl|].
      destruct (Ascii.eqb c dq); [apply settles_refl|].
      destruct (Ascii.eqb c "["); [apply IHa|].
      destruct (Ascii.eqb c "{"); [apply IHo|].
      destruct (is_digit c); [apply settles_refl | apply IHv].
    + intros _it. rewrite !ParseArray_S. apply IHaw.
    + intros value _it. rewrite !ParseArray_while_S.
      apply settles_bind; [apply settles_refl|].
      intros c. destruct (Ascii.eqb c "]"); [apply settles_refl|].
      destruct (is_separator c); [apply IHaw|].
      apply settles_bind; [apply IHv|].
      intros [element it']. apply IHaw.
    + intros _it. rewrite !ParseObject_S.
      apply settles_bind; [apply IHow|].
      intros [refValue it']. apply settles_refl.
    + intros value _it. rewrite !ParseObject_while_S.
      apply settles_bind; [apply settles_refl|].
      intros c. destruct (Ascii.eqb c "}"); [apply settles_refl|].
      destruct (is_separator c); [apply IHow|].
      apply settles_bind; [apply settles_refl|].
      intros [key it'].
      apply settles_bind; [apply IHv|].
      intros [v it'']. apply IHow.
Qed.

Lemma ParseJson_body_fuel (fuel fuel' : nat) (st : ParseJson_state) :
  fuel <= fuel' ->
  settles (ParseJson_body text _it_end fuel st)
          (ParseJson_body text _it_end fuel' st).
Proof.
  intros Hle.
  destruct (Parse_functions_fuel fuel fuel' Hle) as (_ & Ha & _ & Ho & _).
  unfold ParseJson_body.
  apply settles_bind; [apply settles_refl|].
  intros c.
  destruct (Ascii.eqb c "n"); [apply settles_refl|].
  destruct (Ascii.eqb c "t" || Ascii.eqb c "f"); [apply settles_refl|].
  destruct (Ascii.eqb c dq); [apply settles_refl|].
  destruct (Ascii.eqb c "[").
  { apply settles_bind; [apply Ha|]. intros [v it']. apply settles_refl. }
  destruct (Ascii.eqb c "{").
  { apply settles_bind; [apply Ho|]. intros [v it']. apply settles_refl. }
  apply settles_refl.
Qed.

Lemma ParseJson_for_fuel (fuel : nat) :
  forall (fuel' : nat) (st : ParseJson_state), fuel <= fuel' ->
  settles (ParseJson_for text _it_end fuel st)
          (ParseJson_for text _it_end fuel' st).
Proof.
  induction fuel as [|fuel IH]; intros fuel' st Hle.
  - destruct fuel'; simpl; destruct (it st =? _it_end)%nat;
      try apply settles_refl; now left.
  - destruct fuel' as [|fuel']; [lia|]. simpl.
    destruct (it st =? _it_end)%nat; [apply settles_refl|].
    apply settles_bind.
    + unfold ParseJson_turn. apply settles_bind.
      * apply ParseJson_body_fuel. lia.
      * intros st'. apply settles_refl.
    + intros st'. apply IH. lia.
Qed.

End ParserInvariant.

(** A run of [Parse] that ended otherwise than by lack of fuel ends the
    same way with any larger amount. *)
Lemma Parse_fuel {B : MapBackend} (fuel fuel' : nat) (json_str : string) :
  fuel <= fuel' -> settles (Parse fuel json_str) (Parse fuel' json_str).
Proof.
  intros Hle. unfold Parse. destruct json_str as [|c0 rest]; [apply settles_refl|].
  unfold ParseJson. apply settles_bind; [apply settles_refl|].
  intros c. destruct (Ascii.eqb c "{"); [|apply settles_refl].
  now apply ParseJson_for_fuel.
Qed.

Lemma Parse_post {B : MapBackend} (fuel : nat) (json_str : string) :
  post (fun d => raw_digit_first_members (_map d) = true) (Parse fuel json_str).
Proof.
  unfold Parse. destruct json_str as [|c0 rest]; [reflexivity|].
  unfold ParseJson.
  destruct (deref_cases (String c0 rest) 0) as [(c & Hget & ->) | ->]; [|exact I].
  cbn [bind]. destruct (Ascii.eqb c "{"); [|reflexivity].
  now apply ParseJson_for_post.
Qed.

(* ================================================================== *)
(** ** Running the serializer and the parser on concrete trees and texts *)

Lemma SerializeObject_renders_witness :
  let text := "{" ++ quoted "a" ++ ":" ++ quoted "x" ++ ","
                  ++ quoted "b" ++ ":[true,1,null,-5]}" in
  serializable_document sample_document = true
  /\ @SerializeObject no_float_text sample_document = Ok text
  /\ text = @render_document no_float_text sample_document.
Proof.
  intros text.
  assert (H : serializable_document sample_document = true) by reflexivity.
  destruct (@SerializeObject_renders no_float_text sample_document) as [H1 H2].
  assert (Hs : @SerializeObject no_float_text sample_document = Ok text)
    by exact (H1 H).
  split; [exact H|]. split; [exact Hs|]. exact (proj2 (H2 text Hs)).
Defined.

Section MinusSign.
Context {B : MapBackend}.

(** C9, as the code has it.  A ['-'] at a dispatch point falls to the
    default case: the loop of [ParseJson] leaves its state as it is and
    [ParseValue] moves on to the next character.  Accumulation starts at a
    digit, so the raw text of every Number in a document that [Parse]
    returns starts with a digit, never with a minus sign.  (A ['-'] that
    follows the first digit is accumulated like any other character.) *)
Theorem Parse_raw_number_never_minus_first (text : string) :
  (forall (_it_end fuel : nat) (st : ParseJson_state),
      deref text (it st) = Ok "-"%char ->
      ParseJson_body text _it_end fuel st = Ok st)
  /\ (forall (_it_end fuel _it : nat),
      (_it =? _it_end)%nat = false ->
      deref text _it = Ok "-"%char ->
      ParseValue text _it_end (S fuel) _it = ParseValue text _it_end fuel (S _it))
  /\ (forall (fuel : nat) (d : JsonDocument),
      Parse fuel text = Ok d ->
      raw_digit_first_members (_map d) = true)
  /\ (forall s : string, digit_first s = true -> minus_first s = false).
Proof.
  repeat split.
  - intros _it_end fuel st H. unfold ParseJson_body. rewrite H. reflexivity.
  - intros _it_end fuel _it Hend H. rewrite ParseValue_S, Hend, H. reflexivity.
  - intros fuel d H. exact (post_Ok _ _ _ (Parse_post fuel text) H).
  - intros [|c s]; simpl; [discriminate|].
    intros H. now destruct (is_digit_not_delimiter c H) as (_ & _ & _ & ->).
Qed.

End MinusSign.

Lemma Parse_raw_number_never_minus_first_witness :
  deref minus_text 5 = Ok "-"%char
  /\ Parse 6 minus_text = Ok {| _map := [("a", raw_number "1e-5")] |}
  /\ raw_digit_first_members [("a", raw_number "1e-5")] = true
  /\ ParseJson_body minus_text 11 0
       {| doc := JsonDocument_default; isKey := true; key_word := "a"; it := 5 |}
     = Ok {| doc := JsonDocument_default; isKey := true; key_word := "a"; it := 5 |}
  /\ ParseValue minus_text 11 2 5 = ParseValue minus_text 11 1 6
  /\ minus_first "1e-5" = false.
Proof.
  assert (Hd : deref minus_text 5 = Ok "-"%char) by reflexivity.
  assert (Hp : Parse 6 minus_text = Ok {| _map := [("a", raw_number "1e-5")] |})
    by reflexivity.
  destruct (Parse_raw_number_never_minus_first minus_text) as (H1 & H2 & H3 & H4).
  split; [exact Hd|]. split; [exact Hp|].
  split; [exact (H3 _ _ Hp)|].
  split; [exact (H1 11 0
    {| doc := JsonDocument_default; isKey := true; key_word := "a"; it := 5 |} Hd)|].
  split; [exact (H2 11 1 5 eq_refl Hd)|].
  apply H4. reflexivity.
Defined.

(** C9, where it does not hold: the raw text of the Number parsed from
    [-1e-5] contains a minus sign, after the first digit. *)
Lemma Parse_raw_number_contains_minus :
  exists v : JsonValue,
    Parse 6 minus_text = Ok {| _map := [("a", v)] |}
    /\ GetType v = JsonValueType.Number
    /\ _number_type v = Some JsonNumberType.String
    /\ contains "-" (GetNumberString v) = true.
Proof. exists (raw_number "1e-5"). repeat split. Qed.

(* ================================================================== *)
(** ** Malformed literals *)

Lemma get_beyond (n : nat) (s : string) :
  String.length s <= n -> String.get n s = None.
Proof.
  revert n. induction s as [|c s IH]; intros n Hn; [now destruct n|].
  destruct n as [|n]; simpl in *; [lia | apply IH; lia].
Qed.

Section NoErrorResult.
Context {B : MapBackend}.

(** C2, as the code has it.  [ParseJson] has no error result.  With ['t']
    under the cursor its loop stores Boolean true under the pending key and
    skips 4 places, and with ['f'] Boolean false and 5 places, without a
    look at the characters that follow.  When the end of the text cuts the
    literal short, the cursor passes [_it_end]: the loop does not stop, and
    its next turn dereferences outside the text. *)
Theorem Parse_reports_no_error (text : string) :
  (forall (_it_end fuel : nat) (st : ParseJson_state),
      deref text (it st) = Ok "t"%char ->
      ParseJson_body text _it_end fuel st
      = Ok {| doc := JsonDocument.AddMember (key_word st)
                       (SetBoolean true JsonValue_default) (doc st);
              isKey := false; key_word := key_word st; it := it st + 4 |})
  /\ (forall (_it_end fuel : nat) (st : ParseJson_state),
        deref text (it st) = Ok "f"%char ->
        ParseJson_body text _it_end fuel st
        = Ok {| doc := JsonDocument.AddMember (key_word st)
                         (SetBoolean false JsonValue_default) (doc st);
                isKey := false; key_word := key_word st; it := it st + 5 |})
  /\ (forall (_it_end fuel : nat) (st : ParseJson_state),
        deref text (it st) = Ok "t"%char ->
        it st <> _it_end ->
        _it_end < it st + 5 ->
        String.length text <= it st + 5 ->
        ParseJson_for text _it_end (2 + fuel) st = Undefined OutOfBounds).
Proof.
  assert (Ht : forall (_it_end fuel : nat) (st : ParseJson_state),
             deref text (it st) = Ok "t"%char ->
             ParseJson_body text _it_end fuel st
             = Ok {| doc := JsonDocument.AddMember (key_word st)
                              (SetBoolean true JsonValue_default) (doc st);
                     isKey := false; key_word := key_word st;
                     it := it st + 4 |}).
  { intros _it_end fuel st H. unfold ParseJson_body, ParseBoolean.
    rewrite H. reflexivity. }
  split; [exact Ht|]. split.
  - intros _it_end fuel st H. unfold ParseJson_body, ParseBoolean.
    rewrite H. reflexivity.
  - intros _it_end fuel st H Hne Hend Hlen.
    change (2 + fuel) with (S (S fuel)). cbn [ParseJson_for].
    apply Nat.eqb_neq in Hne. rewrite Hne.
    unfold ParseJson_turn at 1. rewrite (Ht _it_end (S fuel) st H).
    cbn [bind]. unfold ParseJson_incr. cbn [doc isKey key_word it].
    replace (S (it st + 4) =? _it_end)%nat with false
      by (symmetry; apply Nat.eqb_neq; lia).
    unfold ParseJson_turn, ParseJson_body, deref. cbn [it].
    rewrite get_beyond by lia. reflexivity.
Qed.

End NoErrorResult.

Lemma Parse_reports_no_error_witness :
  let st := {| doc := JsonDocument_default; isKey := true;
               key_word := "a"; it := 5 |} in
  deref tru_text (it st) = Ok "t"%char
  /\ ParseJson_body tru_text 8 0 st
     = Ok {| doc := {| _map := [("a", SetBoolean true JsonValue_default)] |};
             isKey := false; key_word := "a"; it := 9 |}
  /\ it st <> 8 /\ 8 < it st + 5 /\ String.length tru_text <= it st + 5
  /\ ParseJson_for tru_text 8 2 st = Undefined OutOfBounds.
Proof.
  intros st.
  assert (H : deref tru_text (it st) = Ok "t"%char) by reflexivity.
  assert (Hne : it st <> 8) by discriminate.
  assert (Hend : 8 < it st + 5) by (simpl; lia).
  assert (Hlen : String.length tru_text <= it st + 5) by (simpl; lia).
  destruct (Parse_reports_no_error tru_text) as (H1 & _ & H3).
  split; [exact H|]. split; [exact (H1 8 0 st H)|].
  split; [exact Hne|]. split; [exact Hend|]. split; [exact Hlen|].
  exact (H3 8 0 st H Hne Hend Hlen).
Defined.

(** C2, where it does not hold.  On the example no error is reported, for
    any amount of fuel: after two turns of the loop the document holds
    Boolean true under [a] and the cursor stands beyond the end of the
    text, and the run ends in the dereference there. *)
Lemma Parse_tru_reports_no_ParseError :
  (forall fuel : nat, is_Throw (Parse fuel tru_text) = false)
  /\ (forall fuel : nat, Parse (3 + fuel) tru_text = Undefined OutOfBounds)
  /\ (exists st : ParseJson_state,
        ParseJson_turns tru_text 8 0 2 ParseJson_start = Ok st
        /\ find "a" (_map (doc st)) = Some (SetBoolean true JsonValue_default)
        /\ String.length tru_text < it st).
Proof.
  split; [|split].
  - intros fuel. exact (post_not_Throw _ _ (Parse_post fuel tru_text)).
  - intros fuel. reflexivity.
  - eexists. split; [reflexivity|]. split; [reflexivity|]. simpl. lia.
Qed.

(* ================================================================== *)
(** ** Number accumulation *)

Section NumberAccumulation.
Variable _it_end : nat.

(** Characters that are neither comma nor closing brace are accumulated; a
    closing brace stops the loop, and so does a comma at a place other
    than [_it_end]. *)
Lemma ParseNumber_while_accumulates (w : string) :
  forall (_it : nat) (cache : string) (d : ascii) (rest : string),
    forallb (fun c => negb (Ascii.eqb c ",") && negb (Ascii.eqb c "}"))
            (list_ascii_of_string w) = true ->
    d = "}"%char \/ (d = ","%char /\ _it + String.length w <> _it_end) ->
    ParseNumber_while _it_end (w ++ String d rest) _it cache
    = Ok (cache ++ w, _it + String.length w).
Proof.
  induction w as [|c w IH]; intros _it cache d rest Hw Hd.
  - simpl. rewrite append_nil_r, Nat.add_0_r.
    destruct Hd as [-> | [-> Hne]].
    + reflexivity.
    + simpl in Hne. rewrite Nat.add_0_r in Hne.
      apply Nat.eqb_neq in Hne. now rewrite Hne.
  - simpl in Hw. apply andb_true_iff in Hw as [Hc Hw].
    apply andb_true_iff in Hc as [Hc1 Hc2].
    cbn [append ParseNumber_while]. rewrite Hc1.
    apply negb_true_iff in Hc2. rewrite Hc2. cbn [orb].
    rewrite (IH (S _it) (push_back cache c) d rest Hw).
    + unfold push_back. rewrite append_assoc. simpl.
      now rewrite Nat.add_succ_r.
    + destruct Hd as [Hd | [Hd Hne]]; [now left | right].
      split; [exact Hd|]. simpl in Hne. lia.
Qed.

(** At [_it_end] a comma does not stop the loop, and nothing but a
    closing brace does: the character is accumulated and the cursor moves
    beyond [_it_end]. *)
Lemma ParseNumber_while_at_end (c : ascii) (rest cache : string) :
  Ascii.eqb c "}" = false ->
  ParseNumber_while _it_end (String c rest) _it_end cache
  = ParseNumber_while _it_end rest (S _it_end) (push_back cache c).
Proof.
  intros Hc. cbn [ParseNumber_while].
  now rewrite Nat.eqb_refl, orb_true_r, Hc.
Qed.

End NumberAccumulation.

(** What [ParseNumber] returns on well-delimited text: the characters up
    to the delimiter with white space erased, as a text; the cursor is left
    on the delimiter. *)
Lemma ParseNumber_accumulates (text : string) (_it_end _it : nat)
    (w : string) (d : ascii) (rest : string) :
  string_drop _it text = w ++ String d rest ->
  forallb (fun c => negb (Ascii.eqb c ",") && negb (Ascii.eqb c "}"))
          (list_ascii_of_string w) = true ->
  d = "}"%char \/ (d = ","%char /\ _it + String.length w <> _it_end) ->
  ParseNumber text _it_end _it = Ok (erase_spaces w, _it + String.length w).
Proof.
  intros Hdrop Hw Hd. unfold ParseNumber.
  now rewrite Hdrop, (ParseNumber_while_accumulates _it_end w _it EmptyString d rest Hw Hd).
Qed.

(** C5 at the end of the working range.  With the cursor at [_it_end] the
    loop of [ParseNumber] goes on, also on a comma, which it accumulates;
    on [unclosed_text] it leaves the text.  Before [_it_end] the comma
    stops it: the characters accumulated, white space erased, become a
    Number of the raw-text subkind, unvalidated and unconverted. *)
Theorem ParseNumber_does_not_stop_at_end_of_range :
  (forall (_it_end : nat) (rest cache : string),
      ParseNumber_while _it_end (String "," rest) _it_end cache
      = ParseNumber_while _it_end rest (S _it_end) (push_back cache ","))
  /\ String.length unclosed_text = 7
  /\ ParseNumber_while 6 (string_drop 6 unclosed_text) 6 "1"
     = Undefined OutOfBounds
  /\ ParseNumber unclosed_text 6 5 = Undefined OutOfBounds
  /\ (forall fuel : nat, Parse (2 + fuel) unclosed_text = Undefined OutOfBounds)
  /\ ParseNumber unvalidated_text 14 5 = Ok ("12.3.4", 13)
  /\ (forall fuel : nat,
        Parse (2 + fuel) unvalidated_text
        = Ok {| _map := [("a", raw_number "12.3.4")] |}).
Proof.
  split; [|repeat split].
  - intros _it_end rest cache. now apply ParseNumber_while_at_end.
  - destruct fuel; reflexivity.
Qed.

(* ================================================================== *)
(** ** Insertion into the member mapping *)

Section LastWriteWins.
Context {B : MapBackend}.

Lemma emplace_nil (key : string) (value : JsonValue) :
  emplace key value [] = [(key, value)].
Proof.
  apply Permutation_length_1_inv, Permutation_sym, emplace_Permutation.
Qed.

Lemma find_replace_same (key : string) (value : JsonValue) (m : members) :
  find key m <> None -> find key (replace key value m) = Some value.
Proof.
  induction m as [|[k v] m IH]; simpl; [congruence|].
  destruct (String.eqb key k) eqn:E; simpl; rewrite E; [reflexivity | exact IH].
Qed.

Lemma find_replace_other (key : string) (value : JsonValue) (m : members)
    (key' : string) :
  key' <> key -> find key' (replace key value m) = find key' m.
Proof.
  intros Hne. induction m as [|[k v] m IH]; simpl; [reflexivity|].
  destruct (String.eqb key k) eqn:E; simpl.
  - apply String.eqb_eq in E. subst k.
    apply String.eqb_neq in Hne. now rewrite Hne.
  - now rewrite IH.
Qed.

Lemma find_emplace_same (key : string) (value : JsonValue) (m : members) :
  find key m = None -> find key (emplace key value m) = Some value.
Proof.
  intros Hnone.
  assert (Hin : In (key, value) (emplace key value m)).
  { apply (Permutation_in _ (Permutation_sym (emplace_Permutation key value m))).
    now left. }
  assert (Hall : forall v, In (key, v) (emplace key value m) -> v = value).
  { intros v Hv.
    apply (Permutation_in _ (emplace_Permutation key value m)) in Hv.
    destruct Hv as [[= ->] | Hv]; [reflexivity|].
    exfalso. revert Hnone Hv. clear.
    induction m as [|[k x] m IH]; simpl; [tauto|].
    destruct (String.eqb key k) eqn:E; [discriminate|].
    intros Hnone [[= -> ->] | Hv]; [|now apply IH].
    now rewrite String.eqb_refl in E. }
  revert Hin Hall. generalize (emplace key value m) as l. clear.
  induction l as [|[k x] l IH]; simpl; [tauto|].
  intros Hin Hall. destruct (String.eqb key k) eqn:E.
  - apply String.eqb_eq in E. subst k. f_equal. apply Hall. now left.
  - destruct Hin as [[= -> ->] | Hin]; [now rewrite String.eqb_refl in E|].
    apply IH; [exact Hin|]. intros v Hv. apply Hall. now right.
Qed.

Lemma replace_keys (key : string) (value : JsonValue) (m : members) :
  List.map fst (replace key value m) = List.map fst m.
Proof.
  induction m as [|[k v] m IH]; simpl; [reflexivity|].
  destruct (String.eqb key k); simpl; [reflexivity | now rewrite IH].
Qed.

(** [m[key] = value] makes [key] map to [value] and leaves the other keys
    as they were. *)
Lemma find_assign_same (key : string) (value : JsonValue) (m : members) :
  find key (assign key value m) = Some value.
Proof.
  unfold assign. destruct (find key m) eqn:E.
  - apply find_replace_same. congruence.
  - now apply find_emplace_same.
Qed.

Lemma find_assign_other (key : string) (value : JsonValue) (m : members)
    (key' : string) :
  key' <> key -> find key' (assign key value m) = find key' m.
Proof.
  intros Hne. unfold assign. destruct (find key m).
  - now apply find_replace_other.
  - now apply emplace_find_other.
Qed.

(** After a sequence of insertions a key maps to the value of the last
    insertion under it. *)
Lemma assign_all_last_write_wins (writes : list (string * JsonValue))
    (m : members) (key : string) :
  find key (assign_all writes m)
  = match find key (rev writes) with
    | Some v => Some v
    | None => find key m
    end.
Proof.
  induction writes as [|[k v] writes IH] using rev_ind; [reflexivity|].
  unfold assign_all in *. rewrite fold_left_app, rev_app_distr. simpl.
  destruct (String.eqb key k) eqn:E.
  - apply String.eqb_eq in E. subst k. apply find_assign_same.
  - apply String.eqb_neq in E. rewrite (find_assign_other _ _ _ _ E). exact IH.
Qed.

End LastWriteWins.

Section DuplicateKeys.
Context {B : MapBackend}.

(** C7.  Insertion under a key makes the key map to the value inserted,
    in an Object and in a Document; under a key that is present it
    replaces the value and adds no entry; after any sequence of insertions
    the last one under a key is the one that is found.  On the example the
    loop of [ParseJson] reaches, in four turns, a document in which [a]
    maps to the Number 2; the cursor is then one place beyond [_it_end],
    the loop does not stop, and the run ends in a dereference outside the
    text instead of returning that document. *)
Theorem last_write_wins_but_Parse_overruns :
  (forall (key : string) (value : JsonValue) (obj : JsonValue),
      find key (GetObject (AddMember key value obj)) = Some value)
  /\ (forall (key : string) (value : JsonValue) (d : JsonDocument),
      find key (JsonDocument.GetMember (JsonDocument.AddMember key value d)) = Some value)
  /\ (forall (key : string) (v1 v2 : JsonValue) (m : members),
      List.map fst (assign key v2 (assign key v1 m))
      = List.map fst (assign key v1 m))
  /\ (forall (writes : list (string * JsonValue)) (m : members) (key : string)
             (value : JsonValue),
      find key (assign_all (writes ++ [(key, value)]) m) = Some value)
  /\ (exists st : ParseJson_state,
        ParseJson_turns duplicate_key_text 12 0 4 ParseJson_start = Ok st
        /\ find "a" (JsonDocument.GetMember (doc st)) = Some (raw_number "2")
        /\ it st = 13)
  /\ (forall fuel : nat,
        Parse (5 + fuel) duplicate_key_text = Undefined OutOfBounds).
Proof.
  split; [|split; [|split; [|split; [|split]]]].
  - intros key value obj. apply find_assign_same.
  - intros key value d. apply find_assign_same.
  - intros key v1 v2 m. unfold assign at 1.
    rewrite find_assign_same. apply replace_keys.
  - intros writes m key value. rewrite assign_all_last_write_wins.
    rewrite rev_app_distr. simpl. now rewrite String.eqb_refl.
  - eexists. split; [|split].
    + unfold ParseJson_turns, ParseJson_turn, ParseJson_body, JsonDocument.AddMember.
      simpl. unfold assign. simpl. rewrite emplace_nil. simpl. reflexivity.
    + reflexivity.
    + reflexivity.
  - intros fuel. reflexivity.
Qed.

End DuplicateKeys.

(* ================================================================== *)
(** ** Serializing, then parsing *)

Section RoundTrip.
Context {B : MapBackend} {FT : FloatText}.

(** [ParseValue] returns for ['n'] without moving the cursor, so the loop
    of [ParseArray] meets the same character again: it uses up any amount
    of fuel. *)
Lemma ParseArray_while_null_diverges (fuel : nat) (value : JsonValue) :
  ParseArray_while null_array_text 11 fuel value 6 = OutOfFuel.
Proof.
  revert value. induction fuel as [|fuel IH]; intros value; [reflexivity|].
  rewrite ParseArray_while_S. cbn [deref null_array_text]. simpl.
  destruct fuel as [|fuel]; [reflexivity|].
  rewrite ParseValue_S. simpl. apply IH.
Qed.

(** The cursor is left on [_it_end] and then incremented also after a
    Number, a Boolean or an Object as the last member. *)
Lemma Parse_overruns_after_last_member (fuel : nat) :
  Parse (3 + fuel) (one_member_text "a" "1") = Undefined OutOfBounds
  /\ Parse (3 + fuel) (one_member_text "a" "true") = Undefined OutOfBounds
  /\ Parse (3 + fuel) (one_member_text "a" "false") = Undefined OutOfBounds
  /\ Parse (4 + fuel) (one_member_text "a" "{}") = Undefined OutOfBounds.
Proof. repeat split. Qed.

(** Inside an Array the loop of [ParseNumber] does not stop at the closing
    bracket: it takes it into the number and stops at the brace that is
    [_it_end], where [ParseArray] finds no bracket any more. *)
Lemma ParseNumber_takes_closing_bracket :
  ParseNumber (one_member_text "a" "[1]") 8 6 = Ok ("1]", 8)
  /\ Parse 100 (one_member_text "a" "[1]") = OutOfFuel.
Proof. split; vm_compute; reflexivity. Qed.

(** With a character between the last value and the closing brace the
    loop ends at [_it_end] and the document is returned. *)
Lemma Parse_returns_when_separated (fuel : nat) :
  Parse (2 + fuel) ("{" ++ quoted "a" ++ ":" ++ quoted "x" ++ " }")
  = Ok string_document.
Proof.
  unfold string_document, JsonDocument.AddMember, assign. simpl find. cbv iota.
  rewrite emplace_nil.
  unfold Parse, ParseJson. simpl.
  unfold ParseJson_turn, ParseJson_body, JsonDocument.AddMember, assign. simpl.
  rewrite emplace_nil. destruct fuel; reflexivity.
Qed.

(** C1 on a document with a String as its last member.  The serializer
    writes the closing brace right after the closing quote.  [ParseString]
    leaves the cursor on that brace, which is [_it_end]; the increment of
    the loop of [ParseJson] moves it beyond, the test [_it != _it_end]
    holds, and the next dereference is outside the text.  No amount of
    fuel makes [Parse] return a document.  Nor does any on the text of a
    document with a Null in an Array. *)
Theorem Parse_of_serialized_string_overruns :
  SerializeObject string_document = Ok string_document_text
  /\ String.length string_document_text = 9
  /\ ParseJson_turns string_document_text 8 0 2 ParseJson_start
     = Ok {| doc := string_document; isKey := false; key_word := "a"; it := 9 |}
  /\ (forall fuel : nat,
        Parse (3 + fuel) string_document_text = Undefined OutOfBounds)
  /\ (forall fuel : nat, is_Ok (Parse fuel string_document_text) = false)
  /\ SerializeObject null_array_document = Ok null_array_text
  /\ (forall fuel : nat, Parse fuel null_array_text = OutOfFuel).
Proof.
  assert (Hdoc : string_document
                 = {| _map := [("a", SetString "x" JsonValue_default)] |}).
  { unfold string_document, JsonDocument.AddMember, assign. simpl.
    now rewrite emplace_nil. }
  split; [|split; [|split; [|split; [|split; [|split]]]]].
  - rewrite Hdoc. reflexivity.
  - reflexivity.
  - rewrite Hdoc.
    unfold ParseJson_turns, ParseJson_turn, ParseJson_body, JsonDocument.AddMember.
    simpl. unfold assign. simpl. now rewrite emplace_nil.
  - intros fuel. reflexivity.
  - intros [|[|[|fuel]]]; reflexivity.
  - unfold null_array_document, JsonDocument.AddMember, assign. simpl find.
    cbv iota. rewrite emplace_nil. reflexivity.
  - intros [|[|[|fuel]]]; try reflexivity.
    change (Parse (S (S (S fuel))) null_array_text)
      with (st <- (st <- ('(value, _it) <-
                     ParseArray_while null_array_text 11 fuel
                       (JsonValue_of JsonValueType.Array) 6 ;;
                   Ok {| doc := JsonDocument.AddMember "a" value JsonDocument_default;
                         isKey := false; key_word := "a"; it := _it |}) ;;
                   Ok (ParseJson_incr st)) ;;
            ParseJson_for null_array_text 11 (S fuel) st).
    now rewrite ParseArray_while_null_diverges.
Qed.

End RoundTrip.

(* ================================================================== *)
(** * Further properties of the code *)

(** ** Strings and indices *)

Lemma length_append (a b : string) :
  String.length (a ++ b) = String.length a + String.length b.
Proof. induction a as [|c a IH]; simpl; [reflexivity | now rewrite IH]. Qed.

Lemma string_drop_append (a b : string) :
  string_drop (String.length a) (a ++ b) = b.
Proof. induction a as [|c a IH]; simpl; [reflexivity | exact IH]. Qed.

Lemma string_drop_add (n m : nat) (s : string) :
  string_drop (n + m) s = string_drop m (string_drop n s).
Proof.
  revert s. induction n as [|n IH]; intros s; simpl; [reflexivity|].
  destruct s as [|c s]; [now destruct m | apply IH].
Qed.

Lemma get_append_at (a : string) (c : ascii) (b : string) :
  String.get (String.length a) (a ++ String c b) = Some c.
Proof. induction a as [|x a IH]; simpl; [reflexivity | exact IH]. Qed.

Lemma contains_cons (c x : ascii) (s : string) :
  contains c (String x s) = Ascii.eqb c x || contains c s.
Proof. reflexivity. Qed.

(* ================================================================== *)
(** ** [ParseString] *)

Lemma ParseString_while_closing_quote (s : string) :
  forall (_it : nat) (cache rest : string),
    contains dq s = false ->
    ParseString_while (s ++ String dq rest) _it cache
    = Ok (cache ++ s, _it + String.length s).
Proof.
  induction s as [|c s IH]; intros _it cache rest Hs.
  - simpl. now rewrite append_nil_r, Nat.add_0_r.
  - rewrite contains_cons in Hs. apply orb_false_iff in Hs as [Hc Hs].
    cbn [append ParseString_while]. rewrite Ascii.eqb_sym, Hc.
    rewrite (IH (S _it) (push_back cache c) rest Hs).
    unfold push_back. rewrite append_assoc. simpl.
    now rewrite Nat.add_succ_r.
Qed.

(** X1.  With the cursor on an opening quote, [ParseString] returns the
    characters up to the next double quote, whatever they are (a backslash
    is a character like any other), and leaves the cursor one place after
    that quote. *)
Theorem ParseString_up_to_next_quote (text : string) (_it : nat)
    (s rest : string) :
  string_drop (S _it) text = s ++ String dq rest ->
  contains dq s = false ->
  ParseString text _it = Ok (s, _it + String.length s + 2).
Proof.
  intros Hdrop Hs. unfold ParseString.
  rewrite Hdrop, (ParseString_while_closing_quote s (S _it) EmptyString rest Hs).
  cbn [bind append]. do 2 f_equal. lia.
Qed.

Lemma ParseString_up_to_next_quote_witness :
  let text := "{" ++ quoted "a\" ++ "b" ++ quoted ":1 }" in
  string_drop 2 text = "a\" ++ String dq ("b" ++ quoted ":1 }")
  /\ contains dq "a\" = false
  /\ ParseString text 1 = Ok ("a\", 5).
Proof.
  intros text.
  assert (H1 : string_drop 2 text = "a\" ++ String dq ("b" ++ quoted ":1 }"))
    by reflexivity.
  assert (H2 : contains dq "a\" = false) by reflexivity.
  split; [exact H1|]. split; [exact H2|].
  exact (ParseString_up_to_next_quote text 1 "a\" ("b" ++ quoted ":1 }") H1 H2).
Defined.

Lemma ParseString_while_no_quote (s : string) :
  forall (_it : nat) (cache : string),
    contains dq s = false ->
    ParseString_while s _it cache = Undefined OutOfBounds.
Proof.
  induction s as [|c s IH]; intros _it cache Hs; [reflexivity|].
  rewrite contains_cons in Hs. apply orb_false_iff in Hs as [Hc Hs].
  cbn [ParseString_while]. rewrite Ascii.eqb_sym, Hc. now apply IH.
Qed.

(** X2.  When no double quote follows the opening one, [ParseString] does
    not return: it reads on to the end of the text and dereferences
    there. *)
Theorem ParseString_unterminated (text : string) (_it : nat) :
  contains dq (string_drop (S _it) text) = false ->
  ParseString text _it = Undefined OutOfBounds.
Proof.
  intros H. unfold ParseString.
  now rewrite (ParseString_while_no_quote _ (S _it) EmptyString H).
Qed.

Lemma ParseString_unterminated_witness :
  let text := "{" ++ String dq "abc}" in
  contains dq (string_drop 2 text) = false
  /\ ParseString text 1 = Undefined OutOfBounds.
Proof.
  intros text.
  assert (H : contains dq (string_drop 2 text) = false) by reflexivity.
  split; [exact H | exact (ParseString_unterminated text 1 H)].
Defined.

(* ================================================================== *)
(** ** [ParseNumber] on delimited text *)

Lemma ParseNumber_accumulates_witness :
  let text := "{" ++ quoted "a" ++ ": 1 2.5e+3 ,}" in
  string_drop 6 text = "1 2.5e+3 " ++ String "," "}"
  /\ ParseNumber text 16 6 = Ok ("12.5e+3", 15).
Proof.
  intros text.
  assert (H : string_drop 6 text = "1 2.5e+3 " ++ String "," "}") by reflexivity.
  split; [exact H|].
  refine (ParseNumber_accumulates text 16 6 "1 2.5e+3 " "," "}" H eq_refl _).
  right. split; [reflexivity | discriminate].
Defined.

(** The case of a digit in the [switch] of [ParseJson]. *)
Lemma ParseJson_body_digit {B : MapBackend} (text : string)
    (_it_end fuel : nat)
    (st : ParseJson_state) (c : ascii) (w : string) (d : ascii) (rest : string) :
  string_drop (it st) text = String c (w ++ String d rest) ->
  is_digit c = true ->
  forallb (fun c => negb (Ascii.eqb c ",") && negb (Ascii.eqb c "}"))
          (list_ascii_of_string w) = true ->
  d = "}"%char \/ (d = ","%char /\ it st + S (String.length w) <> _it_end) ->
  ParseJson_body text _it_end fuel st
  = Ok {| doc := JsonDocument.AddMember (key_word st)
                   (raw_number (erase_spaces (String c w))) (doc st);
          isKey := false; key_word := key_word st;
          it := it st + S (String.length w) |}.
Proof.
  intros Hdrop Hdigit Hw Hd.
  assert (Hget : String.get (it st) text = Some c).
  { revert Hdrop. generalize (it st) as n. generalize text as s. clear.
    intros s n. revert s. induction n as [|n IH]; intros [|x s]; simpl;
      try discriminate.
    - now intros [= -> _].
    - apply IH. }
  destruct (is_digit_not_delimiter c Hdigit) as (Hcomma & Hbrace & _ & _).
  assert (Hdispatch : Ascii.eqb c "n" = false
                      /\ (Ascii.eqb c "t" || Ascii.eqb c "f") = false
                      /\ Ascii.eqb c dq = false /\ Ascii.eqb c "[" = false
                      /\ Ascii.eqb c "{" = false).
  { revert Hdigit. clear.
    destruct c as [[] [] [] [] [] [] [] []]; vm_compute; intros H;
      try discriminate H; repeat split. }
  destruct Hdispatch as (Hn & Htf & Hq & Hb & Ho).
  unfold ParseJson_body, deref. rewrite Hget. cbn [bind].
  rewrite Hn, Htf, Hq, Hb, Ho, Hdigit.
  rewrite (ParseNumber_accumulates text _it_end (it st) (String c w) d rest).
  - reflexivity.
  - exact Hdrop.
  - simpl. now rewrite Hcomma, Hbrace, Hw.
  - exact Hd.
Qed.

(** X3.  A member value that starts with a digit is stored under the
    pending key as a Number of the raw-text subkind: the characters up to
    a closing brace, or up to a comma that is not at [_it_end], with white
    space erased and nothing else checked; the cursor is left on the
    delimiter. *)
Theorem ParseJson_body_number {B : MapBackend} (text : string)
    (_it_end fuel : nat)
    (st : ParseJson_state) (c : ascii) (w : string) (d : ascii) (rest : string) :
  string_drop (it st) text = String c (w ++ String d rest) ->
  is_digit c = true ->
  forallb (fun c => negb (Ascii.eqb c ",") && negb (Ascii.eqb c "}"))
          (list_ascii_of_string w) = true ->
  d = "}"%char \/ (d = ","%char /\ it st + S (String.length w) <> _it_end) ->
  ParseJson_body text _it_end fuel st
  = Ok {| doc := JsonDocument.AddMember (key_word st)
                   (raw_number (erase_spaces (String c w))) (doc st);
          isKey := false; key_word := key_word st;
          it := it st + S (String.length w) |}.
Proof. exact (ParseJson_body_digit text _it_end fuel st c w d rest). Qed.

Lemma ParseJson_body_number_witness :
  let text := "{" ++ quoted "a" ++ ": 1 2.5e+3 ,}" in
  let st := {| doc := JsonDocument_default; isKey := true;
               key_word := "a"; it := 6 |} in
  string_drop (it st) text = String "1" (" 2.5e+3 " ++ String "," "}")
  /\ ParseJson_body text 16 0 st
     = Ok {| doc := {| _map := [("a", raw_number "12.5e+3")] |};
             isKey := false; key_word := "a"; it := 15 |}.
Proof.
  intros text st.
  assert (H : string_drop (it st) text
              = String "1" (" 2.5e+3 " ++ String "," "}")) by reflexivity.
  split; [exact H|].
  refine (ParseJson_body_number text 16 0 st "1" " 2.5e+3 " "," "}" H
            eq_refl eq_refl _).
  right. split; [reflexivity | discriminate].
Defined.

(* ================================================================== *)
(** ** [ParseArray] *)

Section ArrayLoop.
Context {B : MapBackend}.

(** X4.  The loop of [ParseArray] does not end on text it cannot get past:
    on an ['n'] (as the one of a [null] element), for which [ParseValue]
    returns without moving the cursor, and at [_it_end] on anything but a
    closing bracket or a separator, where [ParseValue] returns at once.
    It keeps adding elements, whatever the fuel. *)
Theorem ParseArray_while_never_ends (text : string) (_it_end _it : nat)
    (c : ascii) :
  String.get _it text = Some c ->
  (c = "n"%char /\ _it <> _it_end)
  \/ (_it = _it_end /\ c <> "]"%char /\ is_separator c = false) ->
  forall (fuel : nat) (value : JsonValue),
    ParseArray_while text _it_end fuel value _it = OutOfFuel.
Proof.
  intros Hget Hstuck fuel.
  induction fuel as [|fuel IH]; intros value; [reflexivity|].
  rewrite ParseArray_while_S. unfold deref. rewrite Hget. cbn [bind].
  destruct Hstuck as [[-> Hne] | (-> & Hc & Hsep)].
  - cbn [Ascii.eqb Bool.eqb is_separator orb].
    change (is_separator "n") with false. cbv iota.
    destruct fuel as [|fuel].
    + rewrite ParseValue_O. apply Nat.eqb_neq in Hne. now rewrite Hne.
    + rewrite ParseValue_S. apply Nat.eqb_neq in Hne. rewrite Hne.
      unfold deref. rewrite Hget. cbn [bind]. unfold ParseValue_switch.
      cbn [Ascii.eqb Bool.eqb]. cbv iota. cbn [bind]. apply IH.
  - apply Ascii.eqb_neq in Hc. rewrite Hc, Hsep.
    destruct fuel as [|fuel].
    + rewrite ParseValue_O, Nat.eqb_refl. cbn [bind]. apply IH.
    + rewrite ParseValue_S, Nat.eqb_refl. cbn [bind]. apply IH.
Qed.

End ArrayLoop.

Lemma ParseArray_while_never_ends_witness :
  let text := "{" ++ quoted "a" ++ ":[true,null] }" in
  String.get 11 text = Some "n"%char
  /\ ParseArray_while text 17 100 (JsonValue_of JsonValueType.Array) 11
     = OutOfFuel.
Proof.
  intros text.
  assert (H : String.get 11 text = Some "n"%char) by reflexivity.
  split; [exact H|].
  apply (ParseArray_while_never_ends text 17 11 "n"%char H).
  left. split; [reflexivity | discriminate].
Defined.

(* ================================================================== *)
(** ** The shape of what the parser builds *)

Lemma well_tagged_AddElement (e v : JsonValue) :
  well_tagged e = true -> well_tagged v = true ->
  well_tagged (AddElement e v) = true.
Proof.
  intros He Hv. destruct v as [t nt u ns b s arr obj].
  cbn [AddElement well_tagged _type _boolean _number_type _array _object] in *.
  apply andb_true_iff in Hv as [Hv Hobj]. apply andb_true_iff in Hv as [_ Harr].
  rewrite Hobj, forallb_app, Harr. simpl. now rewrite He.
Qed.

Lemma well_tagged_AddMember {B : MapBackend} (key : string)
    (value v : JsonValue) :
  well_tagged value = true -> well_tagged v = true ->
  well_tagged (AddMember key value v) = true.
Proof.
  intros He Hv. destruct v as [t nt u ns b s arr obj].
  cbn [AddMember well_tagged _type _boolean _number_type _array _object] in *.
  apply andb_true_iff in Hv as [Hv Hobj]. apply andb_true_iff in Hv as [_ Harr].
  rewrite Harr. simpl. now apply (forallb_assign well_tagged).
Qed.

Section ParserShape.
Context {B : MapBackend}.
Variable text : string.
Variable _it_end : nat.

Abbreviation tagged_post :=
  (post (fun p : JsonValue * nat => well_tagged (fst p) = true)).

Lemma ParseNumber_no_raise (_it : nat) :
  post (fun _ => True) (ParseNumber text _it_end _it).
Proof.
  unfold ParseNumber.
  eapply post_bind; [apply ParseNumber_while_post|].
  intros [cache it'] _. exact I.
Qed.

Lemma Parse_functions_well_tagged (fuel : nat) :
  (forall _it, tagged_post (ParseValue text _it_end fuel _it))
  /\ (forall _it, tagged_post (ParseArray text _it_end fuel _it))
  /\ (forall value _it, well_tagged value = true ->
        tagged_post (ParseArray_while text _it_end fuel value _it))
  /\ (forall _it, tagged_post (ParseObject text _it_end fuel _it))
  /\ (forall refValue _it, well_tagged refValue = true ->
        tagged_post (ParseObject_while text _it_end fuel refValue _it)).
Proof.
  induction fuel as [|fuel (IHv & IHa & IHaw & IHo & IHow)].
  - repeat split; intros; try exact I.
    rewrite ParseValue_O. destruct (_it =? _it_end)%nat; [reflexivity | exact I].
  - repeat split.
    + intros _it. rewrite ParseValue_S.
      destruct (_it =? _it_end)%nat; [reflexivity|].
      destruct (deref_cases text _it) as [(c & Hget & ->) | ->]; [|exact I].
      cbn [bind]. unfold ParseValue_switch.
      destruct (Ascii.eqb c "n"); [reflexivity|].
      destruct (Ascii.eqb c "t" || Ascii.eqb c "f").
      { eapply post_bind; [apply ParseBoolean_post|].
        intros [b it'] _. reflexivity. }
      destruct (Ascii.eqb c dq).
      { eapply post_bind; [apply ParseString_post|].
        intros [s it'] _. reflexivity. }
      destruct (Ascii.eqb c "["); [apply IHa|].
      destruct (Ascii.eqb c "{"); [apply IHo|].
      destruct (is_digit c); [|apply IHv].
      eapply post_bind; [apply ParseNumber_no_raise|].
      intros [s it'] _. reflexivity.
    + intros _it. rewrite ParseArray_S. now apply IHaw.
    + intros value _it Hvalue. rewrite ParseArray_while_S.
      destruct (deref_cases text _it) as [(c & Hget & ->) | ->]; [|exact I].
      cbn [bind].
      destruct (Ascii.eqb c "]"); [exact Hvalue|].
      destruct (is_separator c); [now apply IHaw|].
      eapply post_bind; [apply IHv|].
      intros [element it'] He. apply IHaw.
      now apply well_tagged_AddElement.
    + intros _it. rewrite ParseObject_S.
      eapply post_bind; [now apply IHow|].
      intros [refValue it'] Hr. exact Hr.
    + intros refValue _it Hvalue. rewrite ParseObject_while_S.
      destruct (deref_cases text _it) as [(c & Hget & ->) | ->]; [|exact I].
      cbn [bind].
      destruct (Ascii.eqb c "}"); [exact Hvalue|].
      destruct (is_separator c); [now apply IHow|].
      eapply post_bind; [apply ParseString_post|].
      intros [key it'] _.
      eapply post_bind; [apply IHv|].
      intros [value it''] Hv. apply IHow.
      now apply well_tagged_AddMember.
Qed.

Lemma ParseJson_body_well_tagged (fuel : nat) (st : ParseJson_state) :
  well_tagged_members (_map (doc st)) = true ->
  post (fun st' => well_tagged_members (_map (doc st')) = true)
       (ParseJson_body text _it_end fuel st).
Proof.
  intros Hst. unfold ParseJson_body.
  assert (Hadd : forall key value,
             well_tagged value = true ->
             well_tagged_members
               (_map (JsonDocument.AddMember key value (doc st))) = true).
  { intros key value Hv. now apply (forallb_assign well_tagged). }
  destruct (deref_cases text (it st)) as [(c & Hget & ->) | ->]; [|exact I].
  cbn [bind].
  destruct (Ascii.eqb c "n"); [now apply Hadd|].
  destruct (Ascii.eqb c "t" || Ascii.eqb c "f").
  { eapply post_bind; [apply ParseBoolean_post|].
    intros [b it'] _. now apply Hadd. }
  destruct (Ascii.eqb c dq).
  { destruct (negb (isKey st)).
    - eapply post_bind; [apply ParseString_post|].
      intros [s it'] _. exact Hst.
    - eapply post_bind; [apply ParseString_post|].
      intros [s it'] _. now apply Hadd. }
  destruct (Ascii.eqb c "[").
  { eapply post_bind; [apply (proj1 (proj2 (Parse_functions_well_tagged fuel)))|].
    intros [value it'] Hv. now apply Hadd. }
  destruct (Ascii.eqb c "{").
  { eapply post_bind;
      [apply (proj1 (proj2 (proj2 (proj2 (Parse_functions_well_tagged fuel)))))|].
    intros [value it'] Hv. now apply Hadd. }
  destruct (is_digit c); [|exact Hst].
  eapply post_bind; [apply ParseNumber_no_raise|].
  intros [s it'] _. now apply Hadd.
Qed.

Lemma ParseJson_for_well_tagged (fuel : nat) (st : ParseJson_state) :
  well_tagged_members (_map (doc st)) = true ->
  post (fun d => well_tagged_members (_map d) = true)
       (ParseJson_for text _it_end fuel st).
Proof.
  revert st. induction fuel as [|fuel IH]; intros st Hst; simpl.
  - destruct (it st =? _it_end)%nat; [exact Hst | exact I].
  - destruct (it st =? _it_end)%nat; [exact Hst|].
    unfold ParseJson_turn.
    apply (post_bind
             (fun st => well_tagged_members (_map (doc st)) = true)).
    + eapply post_bind; [apply (ParseJson_body_well_tagged fuel st Hst)|].
      intros st' Hst'. exact Hst'.
    + intros st' Hst'. now apply IH.
Qed.

End ParserShape.

(** X5.  In every document that [Parse] returns, at any depth, a value
    tagged Boolean holds its [_boolean] and a value tagged Number is of the
    raw-text subkind: the parser builds no value with a typed numeric
    subkind and none whose tag promises a member that was not written. *)
Theorem Parse_well_tagged {B : MapBackend} (fuel : nat) (json_str : string)
    (d : JsonDocument) :
  Parse fuel json_str = Ok d -> well_tagged_members (_map d) = true.
Proof.
  intros H.
  refine (post_Ok (fun d => well_tagged_members (_map d) = true) _ _ _ H).
  unfold Parse. destruct json_str as [|c0 rest]; [reflexivity|].
  unfold ParseJson.
  destruct (deref_cases (String c0 rest) 0) as [(c & Hget & ->) | ->]; [|exact I].
  cbn [bind]. destruct (Ascii.eqb c "{"); [|reflexivity].
  now apply ParseJson_for_well_tagged.
Qed.

Lemma Parse_well_tagged_witness :
  let text := "{" ++ quoted "a" ++ ":[true, false] ," ++ quoted "b" ++ ":1,}" in
  exists d : JsonDocument,
    Parse 10 text = Ok d /\ well_tagged_members (_map d) = true.
Proof.
  intros text. eexists. split; [reflexivity|].
  apply (Parse_well_tagged 10 text). reflexivity.
Defined.

(* ================================================================== *)
(** ** The serializer does not raise *)

Section SerializerNoRaise.
Context {FT : FloatText}.

Lemma is_Throw_bind {A C : Type} (m : outcome A) (k : A -> outcome C) :
  is_Throw m = false -> (forall a, is_Throw (k a) = false) ->
  is_Throw (bind m k) = false.
Proof. destruct m; simpl; auto. Qed.

Lemma NumberText_no_raise (v : JsonValue) : is_Throw (NumberText v) = false.
Proof.
  unfold NumberText, GetNumberType, GetInt, GetUint, GetInt64, GetUint64,
    GetDouble, GetFloat, GetInt16, get_number, GetNumberType.
  destruct (_number_type v) as [[]|]; simpl; try reflexivity;
    destruct (_union v); reflexivity.
Qed.

Lemma preincrement_no_raise (i : Z) : is_Throw (preincrement i) = false.
Proof. unfold preincrement. now destruct (i <? INT_MAX)%Z. Qed.

Lemma GenArray_for_no_raise (size : nat) (items : list JsonValue) :
  Forall (fun v => forall tmp, is_Throw (GenValue tmp v) = false) items ->
  forall (i : Z) (tmp : string),
    is_Throw (GenArray_for size items i tmp) = false.
Proof.
  induction 1 as [|item rest Hitem _ IH]; intros i tmp; [reflexivity|].
  cbn [GenArray_for]. apply is_Throw_bind; [apply Hitem|].
  intros t. apply is_Throw_bind; [apply preincrement_no_raise|].
  intros j. apply IH.
Qed.

Lemma GenObject_for_no_raise (size : nat) (ms : members) :
  Forall (fun kv => forall tmp, is_Throw (GenValue tmp (snd kv)) = false) ms ->
  forall (i : Z) (tmp : string),
    is_Throw (GenObject_for size ms i tmp) = false.
Proof.
  induction 1 as [|[key v] rest Hitem _ IH]; intros i tmp; [reflexivity|].
  cbn [GenObject_for]. apply is_Throw_bind; [apply Hitem|].
  intros t. apply is_Throw_bind; [apply preincrement_no_raise|].
  intros j. apply IH.
Qed.

Lemma GenValue_no_raise (v : JsonValue) :
  forall tmp, is_Throw (GenValue tmp v) = false.
Proof.
  induction v as [t nt u ns b s arr obj IHarr IHobj] using JsonValue_ind.
  destruct t; intros tmp; unfold GenValue; cbn [GetType _type].
  - reflexivity.
  - unfold GetBoolean. cbn [_boolean]. now destruct b.
  - apply is_Throw_bind; [apply NumberText_no_raise | reflexivity].
  - reflexivity.
  - rewrite GenArray_unfold.
    apply is_Throw_bind; [now apply GenArray_for_no_raise | reflexivity].
  - rewrite GenObject_unfold.
    apply is_Throw_bind; [now apply GenObject_for_no_raise | reflexivity].
Qed.

(** X6.  [SerializeObject] does not raise, whatever the document: it calls
    a numeric getter only for a typed subkind, so no text is converted;
    the text of a raw-text Number is appended as it is, numeric or not. *)
Theorem SerializeObject_does_not_raise (doc : JsonDocument) :
  is_Throw (SerializeObject doc) = false
  /\ (forall (key s : string),
        SerializeObject {| _map := [(key, raw_number s)] |}
        = Ok ("{" ++ quoted key ++ ":" ++ s ++ "}")).
Proof.
  split.
  - rewrite SerializeObject_unfold.
    apply is_Throw_bind; [|reflexivity].
    apply GenObject_for_no_raise.
    apply Forall_forall. intros kv _. apply GenValue_no_raise.
  - intros key s. unfold SerializeObject. simpl.
    unfold GenKey, quoted. simpl. rewrite !append_assoc. reflexivity.
Qed.

End SerializerNoRaise.

(* ================================================================== *)
(** ** Arrays *)

Lemma array_of_elements (elements : list JsonValue) (v : JsonValue) :
  GetArray (fold_left (fun v e => AddElement e v) elements v)
  = (GetArray v ++ elements)%list.
Proof.
  revert v. induction elements as [|e elements IH]; intros v; simpl.
  - now rewrite app_nil_r.
  - rewrite IH. simpl. now rewrite <- app_assoc.
Qed.

Lemma array_of_type (elements : list JsonValue) (v : JsonValue) :
  GetType v = JsonValueType.Array ->
  GetType (fold_left (fun v e => AddElement e v) elements v)
  = JsonValueType.Array.
Proof.
  revert v. induction elements as [|e elements IH]; intros v Hv; simpl;
    [exact Hv | now apply IH].
Qed.

Lemma render_Array {FT : FloatText} (v : JsonValue) :
  GetType v = JsonValueType.Array ->
  render v = "[" ++ String.concat "," (List.map render (GetArray v)) ++ "]".
Proof. destruct v as [t nt u ns b s arr obj]. simpl. now intros ->. Qed.

Lemma serializable_Array (v : JsonValue) :
  GetType v = JsonValueType.Array ->
  serializable v = fits_int (GetArray v) && forallb serializable (GetArray v).
Proof. destruct v as [t nt u ns b s arr obj]. simpl. now intros ->. Qed.

Lemma add_elements_type (e : JsonValue) (elements : list JsonValue)
    (v : JsonValue) :
  GetType (add_elements (e :: elements) v) = JsonValueType.Array.
Proof.
  unfold add_elements. cbn [fold_left]. now apply array_of_type.
Qed.

(** X7.  [AddElement] makes the value an Array, whatever it was before,
    and appends the element: after one or more calls on any value the tag
    is Array and [GetArray] returns the elements the value held followed
    by the elements added, in the order of the calls; the serializer
    writes them in that order between brackets, with a comma between two
    elements and none after the last. *)
Theorem AddElement_keeps_order {FT : FloatText} (v e : JsonValue)
    (elements : list JsonValue) :
  forallb serializable (GetArray v ++ e :: elements)%list = true ->
  fits_int (GetArray v ++ e :: elements)%list = true ->
  GetArray (add_elements (e :: elements) v) = (GetArray v ++ e :: elements)%list
  /\ GetType (add_elements (e :: elements) v) = JsonValueType.Array
  /\ (forall tmp : string,
        GenArray tmp (add_elements (e :: elements) v)
        = Ok (tmp ++ "[" ++ String.concat ","
                              (List.map render (GetArray v ++ e :: elements)%list)
                  ++ "]"))
  /\ (forall tmp : string,
        GenValue tmp (add_elements (e :: elements) v)
        = Ok (tmp ++ "[" ++ String.concat ","
                              (List.map render (GetArray v ++ e :: elements)%list)
                  ++ "]")).
Proof.
  intros Hs Hfits.
  assert (Harr : GetArray (add_elements (e :: elements) v)
                 = (GetArray v ++ e :: elements)%list)
    by (unfold add_elements; now rewrite array_of_elements).
  pose proof (add_elements_type e elements v) as Htype.
  split; [exact Harr|]. split; [exact Htype|]. split.
  - intros tmp. rewrite GenArray_unfold, Harr.
    pose proof Hfits as Hle. apply fits_int_le in Hle.
    rewrite (GenArray_for_concat (List.length (GetArray v ++ e :: elements)%list)
               (GetArray v ++ e :: elements)%list);
      try assumption; try reflexivity.
    + cbn [bind]. now rewrite !append_assoc.
    + apply Forall_forall. intros x _ Hx tmp'. now apply GenValue_render.
  - intros tmp. rewrite GenValue_render.
    + now rewrite (render_Array _ Htype), Harr.
    + now rewrite (serializable_Array _ Htype), Harr, Hfits, Hs.
Qed.

Lemma AddElement_keeps_order_witness :
  let v := AddElement (raw_number "1") (SetString "s" JsonValue_default) in
  let e := SetBoolean true JsonValue_default in
  let elements := [JsonValue_of JsonValueType.Null] in
  forallb serializable (GetArray v ++ e :: elements)%list = true
  /\ fits_int (GetArray v ++ e :: elements)%list = true
  /\ GetType (SetString "s" JsonValue_default) = JsonValueType.String
  /\ GetType (add_elements (e :: elements) v) = JsonValueType.Array
  /\ GetArray (add_elements (e :: elements) v)
     = [raw_number "1"; e; JsonValue_of JsonValueType.Null]
  /\ @GenValue no_float_text "x" (add_elements (e :: elements) v)
     = Ok "x[1,true,null]".
Proof.
  intros v e elements.
  assert (H1 : forallb serializable (GetArray v ++ e :: elements)%list = true)
    by reflexivity.
  assert (H2 : fits_int (GetArray v ++ e :: elements)%list = true)
    by reflexivity.
  destruct (@AddElement_keeps_order no_float_text v e elements H1 H2)
    as (Ha & Ht & _ & Hg).
  split; [exact H1|]. split; [exact H2|]. split; [reflexivity|].
  split; [exact Ht|]. split; [exact Ha | exact (Hg "x")].
Defined.

(* ================================================================== *)
(** ** The member mapping under [AddMember] and [operator[]] *)

Section MemberMapping.
Context {B : MapBackend}.

Lemma find_None_keys (key : string) (m : members) :
  find key m = None <-> ~ In key (keys m).
Proof.
  induction m as [|[k v] m IH]; simpl; [tauto|].
  destruct (String.eqb key k) eqn:E.
  - apply String.eqb_eq in E. subst k. split; [discriminate | tauto].
  - apply String.eqb_neq in E. rewrite IH. split.
    + intros H [Hk | Hin]; [now apply E | now apply H].
    + intros H Hin. apply H. now right.
Qed.

Lemma keys_emplace (key : string) (value : JsonValue) (m : members) :
  Permutation (keys (emplace key value m)) (key :: keys m).
Proof.
  unfold keys. change (key :: List.map fst m)
    with (List.map fst ((key, value) :: m)).
  apply Permutation_map, emplace_Permutation.
Qed.

Lemma keys_assign_In (key : string) (value : JsonValue) (m : members)
    (key' : string) :
  In key' (keys (assign key value m)) <-> key' = key \/ In key' (keys m).
Proof.
  unfold assign. destruct (find key m) eqn:E.
  - unfold keys. rewrite replace_keys. split; [tauto|].
    intros [-> | H]; [|exact H].
    destruct (in_dec String.string_dec key (List.map fst m)) as [Hin | Hout];
      [exact Hin|].
    apply find_None_keys in Hout. congruence.
  - split.
    + intros H. apply (Permutation_in _ (keys_emplace key value m)) in H.
      destruct H as [<- | H]; tauto.
    + intros H.
      apply (Permutation_in _ (Permutation_sym (keys_emplace key value m))).
      destruct H as [-> | H]; [now left | now right].
Qed.

Lemma keys_assign_NoDup (key : string) (value : JsonValue) (m : members) :
  NoDup (keys m) -> NoDup (keys (assign key value m)).
Proof.
  intros Hm. unfold assign. destruct (find key m) eqn:E.
  - unfold keys. now rewrite replace_keys.
  - apply (Permutation_NoDup (Permutation_sym (keys_emplace key value m))).
    constructor; [now apply find_None_keys | exact Hm].
Qed.

Lemma assign_all_NoDup (writes : list (string * JsonValue)) :
  forall m : members, NoDup (keys m) -> NoDup (keys (assign_all writes m)).
Proof.
  induction writes as [|[k v] writes IH]; intros m Hm; [exact Hm|].
  apply IH. now apply keys_assign_NoDup.
Qed.

Lemma assign_all_In (writes : list (string * JsonValue)) :
  forall (m : members) (key : string),
    In key (keys (assign_all writes m))
    <-> In key (List.map fst writes) \/ In key (keys m).
Proof.
  induction writes as [|[k v] writes IH]; intros m key; simpl; [tauto|].
  change (assign_all ((k, v) :: writes) m)
    with (assign_all writes (assign k v m)).
  rewrite IH, keys_assign_In. split; intros H; intuition auto.
Qed.

(** X8.  [AddMember] under one key leaves what every other key maps to,
    in an Object and in a Document, and leaves the elements of the value
    alone. *)
Theorem AddMember_leaves_other_keys (key key' : string) (value : JsonValue) :
  key' <> key ->
  (forall obj : JsonValue,
      find key' (GetObject (AddMember key value obj)) = find key' (GetObject obj)
      /\ GetArray (AddMember key value obj) = GetArray obj)
  /\ (forall d : JsonDocument,
        find key' (JsonDocument.GetMember (JsonDocument.AddMember key value d))
        = find key' (JsonDocument.GetMember d)).
Proof.
  intros Hne. split.
  - intros obj. split; [now apply find_assign_other | reflexivity].
  - intros d. now apply find_assign_other.
Qed.

(** X9.  A member mapping built from the empty one by insertions holds
    each key once, and holds exactly the keys inserted; an insertion into
    a mapping with distinct keys keeps them distinct and adds an entry
    only if the key was absent. *)
Theorem AddMember_keys_distinct (writes : list (string * JsonValue)) :
  NoDup (keys (assign_all writes []))
  /\ (forall key : string,
        In key (keys (assign_all writes [])) <-> In key (List.map fst writes))
  /\ (forall (m : members) (key : string) (value : JsonValue),
        NoDup (keys m) ->
        NoDup (keys (assign key value m))
        /\ List.length (assign key value m)
           = match find key m with
             | Some _ => List.length m
             | None => S (List.length m)
             end).
Proof.
  split; [|split].
  - apply assign_all_NoDup. constructor.
  - intros key. rewrite assign_all_In. simpl. tauto.
  - intros m key value Hm. split; [now apply keys_assign_NoDup|].
    unfold assign. destruct (find key m).
    + rewrite <- (length_map fst), replace_keys. apply length_map.
    + apply (Permutation_length (emplace_Permutation key value m)).
Qed.

(** X10.  [operator[]] after [AddMember] under the same key gives the
    value added and leaves the document as it is.  On a key that is absent
    it gives a Null value and adds it to the document under that key,
    where a later access finds it; the other keys are left alone. *)
Theorem operator_brackets_lookup (key : string) (d : JsonDocument) :
  (forall value : JsonValue,
      operator_brackets key (JsonDocument.AddMember key value d)
      = (value, JsonDocument.AddMember key value d))
  /\ (find key (_map d) = None ->
      fst (operator_brackets key d) = JsonValue_default
      /\ GetType (fst (operator_brackets key d)) = JsonValueType.Null
      /\ operator_brackets key (snd (operator_brackets key d))
         = (JsonValue_default, snd (operator_brackets key d))
      /\ List.length (_map (snd (operator_brackets key d)))
         = S (List.length (_map d))
      /\ (forall key' : string, key' <> key ->
            find key' (_map (snd (operator_brackets key d)))
            = find key' (_map d))).
Proof.
  split.
  - intros value. unfold operator_brackets, JsonDocument.AddMember.
    cbn [_map]. now rewrite find_assign_same.
  - intros Hnone. unfold operator_brackets. rewrite Hnone. cbn [fst snd _map].
    repeat split.
    + now rewrite (find_emplace_same _ _ _ Hnone).
    + apply (Permutation_length (emplace_Permutation key JsonValue_default (_map d))).
    + intros key' Hne. now apply emplace_find_other.
Qed.

End MemberMapping.

Lemma AddMember_leaves_other_keys_witness :
  "b" <> "a"
  /\ find "b" (GetObject (AddMember "a" (raw_number "1")
                            (AddMember "b" (raw_number "2")
                               (JsonValue_of JsonValueType.Object))))
     = Some (raw_number "2").
Proof.
  assert (H : "b" <> "a") by discriminate.
  split; [exact H|].
  destruct (AddMember_leaves_other_keys "a" "b" (raw_number "1") H) as [H1 _].
  rewrite (proj1 (H1 _)). reflexivity.
Defined.

Lemma AddMember_keys_distinct_witness :
  let m := [("a", raw_number "1"); ("c", raw_number "3")] in
  NoDup (keys m)
  /\ NoDup (keys (assign "b" (raw_number "2") m))
  /\ List.length (assign "b" (raw_number "2") m) = 3
  /\ List.length (assign "c" (raw_number "2") m) = 2.
Proof.
  intros m.
  assert (H : NoDup (keys m)).
  { repeat constructor; simpl; intuition discriminate. }
  destruct (AddMember_keys_distinct []) as (_ & _ & H3).
  split; [exact H|].
  split; [exact (proj1 (H3 m "b" (raw_number "2") H))|].
  split; [exact (proj2 (H3 m "b" (raw_number "2") H))
         | exact (proj2 (H3 m "c" (raw_number "2") H))].
Defined.

Lemma operator_brackets_lookup_witness :
  find "k" (_map JsonDocument_default) = None
  /\ operator_brackets "k" JsonDocument_default
     = (JsonValue_default, {| _map := [("k", JsonValue_default)] |})
  /\ List.length (_map (snd (operator_brackets "k" JsonDocument_default))) = 1.
Proof.
  assert (H : find "k" (_map JsonDocument_default) = None) by reflexivity.
  destruct (proj2 (operator_brackets_lookup "k" JsonDocument_default) H)
    as (_ & _ & _ & Hlen & _).
  split; [exact H|]. split; [reflexivity | exact Hlen].
Defined.

(* ================================================================== *)
(** ** Decimal text written by [std::to_string] and read by [std::sto*] *)

Lemma read_digits_string_of_uint (d : Decimal.uint) :
  forall (seen : bool) (acc : Z),
    read_digits (NilEmpty.string_of_uint d) seen acc
    = (match d with Decimal.Nil => seen | _ => true end, digits_value d acc).
Proof.
  induction d; intros seen acc; cbn [NilEmpty.string_of_uint read_digits];
    try reflexivity;
    change (is_digit _) with true; cbv iota; rewrite IHd;
    cbn [digits_value]; destruct d; reflexivity.
Qed.

Lemma digits_value_of_uint_acc (d : Decimal.uint) :
  forall acc : positive,
    digits_value d (Z.pos acc) = Z.pos (Pos.of_uint_acc d acc).
Proof.
  induction d; intros acc; cbn [digits_value Pos.of_uint_acc];
    try reflexivity; rewrite <- IHd; f_equal; lia.
Qed.

Lemma digits_value_of_uint (d : Decimal.uint) :
  digits_value d 0 = Z.of_uint d.
Proof.
  unfold Z.of_uint.
  induction d; cbn [digits_value Pos.of_uint]; try reflexivity;
    try (exact IHd); cbn [Z.mul Z.add Z.of_N];
    apply digits_value_of_uint_acc.
Qed.

Lemma is_digit_not_sign (c : ascii) :
  is_digit c = true ->
  isspace c = false /\ Ascii.eqb c "-" = false /\ Ascii.eqb c "+" = false.
Proof.
  destruct c as [[] [] [] [] [] [] [] []]; vm_compute; intros H;
    try discriminate H; repeat split.
Qed.

Lemma string_of_uint_head (d : Decimal.uint) :
  exists (c : ascii) (rest : string),
    NilZero.string_of_uint d = String c rest /\ is_digit c = true.
Proof. destruct d; do 2 eexists; split; reflexivity. Qed.

Lemma read_digits_NilZero (d : Decimal.uint) :
  read_digits (NilZero.string_of_uint d) false 0 = (true, digits_value d 0).
Proof.
  destruct d; try reflexivity;
    unfold NilZero.string_of_uint; now rewrite read_digits_string_of_uint.
Qed.

Lemma scan_integer_digits (d : Decimal.uint) :
  scan_integer (NilZero.string_of_uint d) = Some (false, Z.of_uint d).
Proof.
  destruct (string_of_uint_head d) as (c & rest & Hs & Hc).
  destruct (is_digit_not_sign c Hc) as (Hspace & Hminus & Hplus).
  unfold scan_integer. rewrite Hs. cbn [skip_spaces].
  rewrite Hspace, Hminus, Hplus, <- Hs, read_digits_NilZero.
  now rewrite digits_value_of_uint.
Qed.

(** What the conversions scan in the text [std::to_string] writes: the
    sign and the magnitude of the number. *)
Lemma scan_integer_to_string (z : Z) :
  scan_integer (to_string z) = Some ((z <? 0)%Z, Z.abs z).
Proof.
  unfold to_string.
  pose proof (DecimalZ.of_to z) as Hz.
  destruct z as [|p|p]; [reflexivity | |].
  - cbn [Z.to_int NilZero.string_of_int] in *.
    rewrite scan_integer_digits. cbn [Z.of_int] in Hz. now rewrite Hz.
  - cbn [Z.to_int NilZero.string_of_int] in *.
    unfold scan_integer. cbn [skip_spaces].
    change (isspace "-") with false. cbv iota.
    change (Ascii.eqb "-" "-") with true. cbv iota.
    rewrite read_digits_NilZero, digits_value_of_uint.
    cbn [Z.of_int] in Hz. f_equal. f_equal. cbn [Z.abs]. lia.
Qed.

Lemma to_signed_small (w z : Z) :
  (0 < w)%Z -> (- 2 ^ (w - 1) <= z < 2 ^ (w - 1))%Z -> to_signed w z = z.
Proof.
  intros Hw Hz. unfold to_signed.
  assert (Hpow : (2 ^ w = 2 * 2 ^ (w - 1))%Z).
  { replace w with (Z.succ (w - 1)) at 1 by lia. apply Z.pow_succ_r. lia. }
  rewrite Hpow.
  destruct (Z.neg_nonneg_cases z) as [Hneg | Hpos].
  - assert (H : (z mod (2 * 2 ^ (w - 1)) = z + 2 * 2 ^ (w - 1))%Z)
      by (symmetry; apply (Z.mod_unique z _ (-1)); lia).
    rewrite H.
    replace (z + 2 * 2 ^ (w - 1) <? 2 ^ (w - 1))%Z with false
      by (symmetry; apply Z.ltb_ge; lia).
    lia.
  - rewrite Z.mod_small by lia.
    replace (z <? 2 ^ (w - 1))%Z with true by (symmetry; apply Z.ltb_lt; lia).
    reflexivity.
Qed.

Lemma to_signed_16_small (z : Z) :
  (- 32768 <= z <= 32767)%Z -> to_signed 16 z = z.
Proof.
  intros Hz. apply to_signed_small; [lia|].
  change (2 ^ (16 - 1))%Z with 32768%Z. lia.
Qed.

Lemma to_signed_32_small (z : Z) :
  (INT_MIN <= z <= INT_MAX)%Z -> to_signed 32 z = z.
Proof.
  unfold INT_MIN, INT_MAX. intros Hz. apply to_signed_small; [lia|].
  change (32 - 1)%Z with 31%Z. lia.
Qed.

Lemma to_signed_64_small (z : Z) :
  (LLONG_MIN <= z <= LLONG_MAX)%Z -> to_signed 64 z = z.
Proof.
  unfold LLONG_MIN, LLONG_MAX. intros Hz. apply to_signed_small; [lia|].
  change (64 - 1)%Z with 63%Z. lia.
Qed.

Lemma to_unsigned_small (w z : Z) :
  (0 <= z < 2 ^ w)%Z -> to_unsigned w z = z.
Proof. intros Hz. unfold to_unsigned. now apply Z.mod_small. Qed.

Section DecimalRoundTrip.
Context {FT : FloatText}.

(** What the serializer writes for a Number set by a typed integer
    setter: the decimal text of the argument as converted to the
    parameter type. *)
Lemma NumberText_typed_setters (z : Z) (v : JsonValue) :
  NumberText (SetInt z v) = Ok (to_string (to_signed 32 z))
  /\ NumberText (SetInt64 z v) = Ok (to_string (to_signed 64 z))
  /\ NumberText (SetUint64 z v) = Ok (to_string (to_unsigned 64 z))
  /\ NumberText (SetInt16 z v) = Ok (to_string (to_signed 16 z))
  /\ NumberText (SetUint z v) = Ok (to_string (to_unsigned 32 z)).
Proof. repeat split. Qed.

(** X11.  For every value of [int], the text the serializer writes for a
    Number set with [SetInt] is the decimal text of the integer, and
    [GetInt], given this text as raw text, returns the integer; likewise
    for [int64_t], [uint64_t], [short] and [unsigned int] with the setter
    and the getter of that kind.  An argument outside the range of the
    parameter type is converted to it at the call, and it is the converted
    value that is written. *)
Theorem typed_integer_text_round_trip (z : Z) (v : JsonValue) :
  ((INT_MIN <= z <= INT_MAX)%Z ->
   NumberText (SetInt z v) = Ok (to_string z)
   /\ GetInt (raw_number (to_string z)) = Ok z)
  /\ ((LLONG_MIN <= z <= LLONG_MAX)%Z ->
      NumberText (SetInt64 z v) = Ok (to_string z)
      /\ GetInt64 (raw_number (to_string z)) = Ok z)
  /\ ((0 <= z <= ULLONG_MAX)%Z ->
      NumberText (SetUint64 z v) = Ok (to_string z)
      /\ GetUint64 (raw_number (to_string z)) = Ok z)
  /\ ((- 32768 <= z <= 32767)%Z ->
      NumberText (SetInt16 z v) = Ok (to_string z)
      /\ GetInt16 (raw_number (to_string z)) = Ok z)
  /\ ((0 <= z <= 4294967295)%Z ->
      NumberText (SetUint z v) = Ok (to_string z)
      /\ GetUint (raw_number (to_string z)) = Ok z)
  /\ (NumberText (SetInt z v) = Ok (to_string (to_signed 32 z))
      /\ NumberText (SetInt64 z v) = Ok (to_string (to_signed 64 z))
      /\ NumberText (SetUint64 z v) = Ok (to_string (to_unsigned 64 z))
      /\ NumberText (SetInt16 z v) = Ok (to_string (to_signed 16 z))
      /\ NumberText (SetUint z v) = Ok (to_string (to_unsigned 32 z))).
Proof.
  destruct (NumberText_typed_setters z v) as (Ni & Nl & Nul & Ns & Nu).
  assert (Hsigned : forall lo hi, (lo <= z <= hi)%Z ->
                      sto_signed lo hi (to_string z) = Ok z).
  { intros lo hi Hz. unfold sto_signed. rewrite scan_integer_to_string.
    replace (if (z <? 0)%Z then (- Z.abs z)%Z else Z.abs z) with z
      by (destruct (Z.ltb_spec z 0); lia).
    replace ((lo <=? z) && (z <=? hi))%Z with true; [reflexivity|].
    symmetry. apply andb_true_iff. split; apply Z.leb_le; lia. }
  assert (Hunsigned : forall max, (0 <= z <= max)%Z ->
                        sto_unsigned max (to_string z) = Ok z).
  { intros max Hz. unfold sto_unsigned. rewrite scan_integer_to_string.
    replace (z <? 0)%Z with false by (symmetry; apply Z.ltb_ge; lia).
    replace (Z.abs z <=? max)%Z with true
      by (symmetry; apply Z.leb_le; lia).
    f_equal. lia. }
  split; [|split; [|split; [|split; [|split]]]].
  - intros Hz. split.
    + now rewrite Ni, to_signed_32_small.
    + exact (Hsigned _ _ Hz).
  - intros Hz. split.
    + now rewrite Nl, to_signed_64_small.
    + exact (Hsigned _ _ Hz).
  - intros Hz. split.
    + rewrite Nul, to_unsigned_small; [reflexivity|].
      unfold ULLONG_MAX in Hz. lia.
    + exact (Hunsigned _ Hz).
  - intros Hz. split.
    + now rewrite Ns, to_signed_16_small.
    + change (GetInt16 (raw_number (to_string z)))
        with (x <- stoi (to_string z) ;; Ok (to_signed 16 x)).
      unfold stoi. rewrite (Hsigned INT_MIN INT_MAX).
      * cbn [bind]. now rewrite to_signed_16_small.
      * unfold INT_MIN, INT_MAX. lia.
  - intros Hz. split.
    + rewrite Nu, to_unsigned_small; [reflexivity|].
      change (2 ^ 32)%Z with 4294967296%Z. lia.
    + change (GetUint (raw_number (to_string z)))
        with (x <- stoul (to_string z) ;; Ok (to_unsigned 32 x)).
      unfold stoul. rewrite (Hunsigned ULONG_MAX).
      * cbn [bind]. unfold to_unsigned. change (2 ^ 32)%Z with 4294967296%Z.
        rewrite Z.mod_small by lia. reflexivity.
      * unfold ULONG_MAX. lia.
  - exact (NumberText_typed_setters z v).
Qed.

End DecimalRoundTrip.

Lemma typed_integer_text_round_trip_witness :
  (INT_MIN <= -2147483648 <= INT_MAX)%Z
  /\ @NumberText no_float_text (SetInt (-2147483648) JsonValue_default)
     = Ok "-2147483648"
  /\ GetInt (raw_number "-2147483648") = Ok (-2147483648)%Z
  /\ (0 <= 18446744073709551615 <= ULLONG_MAX)%Z
  /\ GetUint64 (raw_number (to_string 18446744073709551615))
     = Ok 18446744073709551615%Z
  /\ @NumberText no_float_text (SetInt16 70000 JsonValue_default) = Ok "4464"
  /\ @NumberText no_float_text (SetUint (-1) JsonValue_default)
     = Ok "4294967295".
Proof.
  assert (H1 : (INT_MIN <= -2147483648 <= INT_MAX)%Z)
    by (split; discriminate).
  assert (H2 : (0 <= 18446744073709551615 <= ULLONG_MAX)%Z)
    by (split; discriminate).
  destruct (@typed_integer_text_round_trip no_float_text (-2147483648)
              JsonValue_default) as (Hi & _).
  destruct (@typed_integer_text_round_trip no_float_text 18446744073709551615
              JsonValue_default) as (_ & _ & Hu & _).
  destruct (@typed_integer_text_round_trip no_float_text 70000
              JsonValue_default) as (_ & _ & _ & _ & _ & _ & _ & _ & Hs & _).
  destruct (@typed_integer_text_round_trip no_float_text (-1)
              JsonValue_default) as (_ & _ & _ & _ & _ & _ & _ & _ & _ & Hn).
  split; [exact H1|]. split; [exact (proj1 (Hi H1))|].
  split; [exact (proj2 (Hi H1))|]. split; [exact H2|].
  split; [exact (proj2 (Hu H2))|]. split; [exact Hs | exact Hn].
Defined.

(* ================================================================== *)
(** ** Texts that are parsed back *)

Lemma get_append_skip (a b : string) (n : nat) :
  String.get (String.length a + n) (a ++ b) = String.get n b.
Proof. induction a as [|x a IH]; simpl; [reflexivity | exact IH]. Qed.

Lemma string_drop_append_skip (a b : string) (n : nat) :
  string_drop (String.length a + n) (a ++ b) = string_drop n b.
Proof. induction a as [|x a IH]; simpl; [reflexivity | exact IH]. Qed.

Section KeyedText.
Context {B : MapBackend}.
Variable key : string.
Variable tail : string.
Hypothesis key_no_quote : contains dq key = false.

(** An opening brace, the key between double quotes, and [tail]. *)
Let text : string := String "{" (String dq (key ++ String dq tail)).

Lemma keyed_get (n : nat) :
  String.get (String.length key + (3 + n)) text = String.get n tail.
Proof.
  unfold text. replace (String.length key + (3 + n))
    with (S (S (String.length key + S n))) by lia.
  cbn [String.get]. rewrite get_append_skip. reflexivity.
Qed.

Lemma keyed_drop (n : nat) :
  string_drop (String.length key + (3 + n)) text = string_drop n tail.
Proof.
  unfold text. replace (String.length key + (3 + n))
    with (S (S (String.length key + S n))) by lia.
  cbn [string_drop]. rewrite string_drop_append_skip. reflexivity.
Qed.

Lemma keyed_length :
  String.length text = String.length key + (3 + String.length tail).
Proof. unfold text. cbn [String.length]. rewrite length_append. simpl. lia. Qed.

(** The first turn of the loop of [ParseJson] takes the key. *)
Lemma keyed_first_turn (_it_end fuel : nat) :
  ParseJson_turn text _it_end fuel ParseJson_start
  = Ok {| doc := JsonDocument_default; isKey := true; key_word := key;
          it := String.length key + 4 |}.
Proof.
  unfold ParseJson_turn, ParseJson_body, ParseJson_start. cbn [it isKey doc].
  unfold deref, text. cbn [String.get bind].
  change (Ascii.eqb dq "n") with false.
  change (Ascii.eqb dq "t" || Ascii.eqb dq "f") with false.
  change (Ascii.eqb dq dq) with true. cbv iota. cbn [negb].
  unfold ParseString. cbn [string_drop].
  rewrite (ParseString_while_closing_quote key 2 EmptyString tail key_no_quote).
  cbn [bind append]. unfold ParseJson_incr. cbn [doc isKey key_word it].
  do 2 f_equal. lia.
Qed.

(** A turn on a character that the switch does not name moves on. *)
Lemma ParseJson_turn_default (s : string) (_it_end fuel : nat)
    (st : ParseJson_state) (c : ascii) :
  String.get (it st) s = Some c ->
  Ascii.eqb c "n" = false -> (Ascii.eqb c "t" || Ascii.eqb c "f") = false ->
  Ascii.eqb c dq = false -> Ascii.eqb c "[" = false ->
  Ascii.eqb c "{" = false -> is_digit c = false ->
  ParseJson_turn s _it_end fuel st = Ok (ParseJson_incr st).
Proof.
  intros Hget Hn Htf Hq Hb Ho Hd.
  unfold ParseJson_turn, ParseJson_body, deref. rewrite Hget. cbn [bind].
  now rewrite Hn, Htf, Hq, Hb, Ho, Hd.
Qed.

Lemma ParseJson_for_S (s : string) (_it_end fuel : nat) (st : ParseJson_state) :
  (it st =? _it_end)%nat = false ->
  ParseJson_for s _it_end (S fuel) st
  = (st' <- ParseJson_turn s _it_end fuel st ;; ParseJson_for s _it_end fuel st').
Proof. intros H. cbn [ParseJson_for]. now rewrite H. Qed.

Lemma ParseJson_for_end (s : string) (_it_end fuel : nat) (st : ParseJson_state) :
  it st = _it_end -> ParseJson_for s _it_end fuel st = Ok (doc st).
Proof.
  intros H. apply Nat.eqb_eq in H. destruct fuel; cbn [ParseJson_for];
    now rewrite H.
Qed.

Lemma Parse_keyed (fuel : nat) :
  Parse fuel text
  = ParseJson_for text (String.length key + (2 + String.length tail)) fuel
      ParseJson_start.
Proof.
  unfold Parse. change text with (String "{" (String dq (key ++ String dq tail)))
    at 1.
  cbv iota. unfold ParseJson, deref.
  change (String.get 0 text) with (Some "{"%char). cbn [bind].
  change (Ascii.eqb "{" "{") with true. cbv iota.
  rewrite keyed_length.
  replace (Nat.pred (String.length key + (3 + String.length tail)))
    with (String.length key + (2 + String.length tail)) by lia.
  reflexivity.
Qed.

End KeyedText.

Section RoundTrips.
Context {B : MapBackend} {FT : FloatText}.

Lemma ParseJson_turn_null (s : string) (_it_end fuel : nat)
    (st : ParseJson_state) :
  String.get (it st) s = Some "n"%char ->
  ParseJson_turn s _it_end fuel st
  = Ok {| doc := JsonDocument.AddMember (key_word st)
                   (JsonValue_of JsonValueType.Null) (doc st);
          isKey := false; key_word := key_word st; it := S (it st) |}.
Proof.
  intros Hget. unfold ParseJson_turn, ParseJson_body, deref.
  rewrite Hget. reflexivity.
Qed.

Lemma one_member_text_keyed (key value_text : string) :
  one_member_text key value_text
  = String "{" (String dq (key ++ String dq (String ":" (value_text ++ "}")))).
Proof.
  unfold one_member_text, quoted. simpl. now rewrite append_assoc.
Qed.

(** X12.  A document whose one member is a Null is parsed back from its
    serialization, whatever the key, as long as the key holds no double
    quote: after the [n] the loop passes over [ull] one character at a
    time and ends on the closing brace. *)
Theorem null_member_round_trip (key : string) :
  contains dq key = false ->
  SerializeObject (null_document key) = Ok (one_member_text key "null")
  /\ (forall fuel : nat,
        Parse (5 + fuel) (one_member_text key "null") = Ok (null_document key)).
Proof.
  intros Hkey. split.
  - unfold null_document, JsonDocument.AddMember, assign. cbn [find _map JsonDocument_default].
    rewrite emplace_nil. rewrite one_member_text_keyed.
    unfold SerializeObject. simpl. unfold GenKey. simpl.
    rewrite !append_assoc. reflexivity.
  - intros fuel. rewrite one_member_text_keyed.
    rewrite Parse_keyed. cbn [String.length append Nat.add].
    pose proof (keyed_get key ":null}") as Hget.
    assert (G1 := Hget 1). assert (G2 := Hget 2). assert (G3 := Hget 3).
    assert (G4 := Hget 4). cbn [Nat.add String.get] in G1, G2, G3, G4.
    change (5 + fuel) with (S (S (S (S (S fuel))))).
    rewrite ParseJson_for_S by (apply Nat.eqb_neq; cbn [it ParseJson_start]; lia).
    rewrite (keyed_first_turn key _ Hkey). cbn [bind].
    rewrite ParseJson_for_S by (apply Nat.eqb_neq; cbn [it]; lia).
    rewrite ParseJson_turn_null by exact G1. cbn [bind key_word doc it].
    rewrite <- Nat.add_succ_r.
    rewrite ParseJson_for_S by (apply Nat.eqb_neq; cbn [it]; lia).
    rewrite (ParseJson_turn_default _ _ _ _ "u"%char) by (exact G2 || reflexivity).
    cbn [bind]. unfold ParseJson_incr. cbn [key_word doc it isKey]. rewrite <- Nat.add_succ_r.
    rewrite ParseJson_for_S by (apply Nat.eqb_neq; cbn [it]; lia).
    rewrite (ParseJson_turn_default _ _ _ _ "l"%char) by (exact G3 || reflexivity).
    cbn [bind]. unfold ParseJson_incr. cbn [key_word doc it isKey]. rewrite <- Nat.add_succ_r.
    rewrite ParseJson_for_S by (apply Nat.eqb_neq; cbn [it]; lia).
    rewrite (ParseJson_turn_default _ _ _ _ "l"%char) by (exact G4 || reflexivity).
    cbn [bind]. unfold ParseJson_incr. cbn [key_word doc it isKey]. rewrite <- Nat.add_succ_r.
    rewrite ParseJson_for_end by reflexivity.
    reflexivity.
Qed.

End RoundTrips.

Section StringMember.
Context {B : MapBackend}.

(** A turn on the opening quote of a value, with a key pending. *)
Lemma ParseJson_turn_string_value (text : string) (_it_end fuel : nat)
    (st : ParseJson_state) (s rest : string) :
  String.get (it st) text = Some dq ->
  isKey st = true ->
  string_drop (S (it st)) text = s ++ String dq rest ->
  contains dq s = false ->
  ParseJson_turn text _it_end fuel st
  = Ok {| doc := JsonDocument.AddMember (key_word st)
                   (SetString s JsonValue_default) (doc st);
          isKey := false; key_word := key_word st;
          it := S (S (S (it st + String.length s))) |}.
Proof.
  intros Hget Hkey Hdrop Hs.
  unfold ParseJson_turn, ParseJson_body, deref. rewrite Hget. cbn [bind].
  change (Ascii.eqb dq "n") with false.
  change (Ascii.eqb dq "t" || Ascii.eqb dq "f") with false.
  change (Ascii.eqb dq dq) with true. cbv iota. rewrite Hkey. cbn [negb].
  unfold ParseString. rewrite Hdrop.
  rewrite (ParseString_while_closing_quote s (S (it st)) EmptyString rest Hs).
  cbn [bind append]. unfold ParseJson_incr. cbn [doc isKey key_word it].
  reflexivity.
Qed.

(** X13.  A text made of an opening brace, a key between double quotes,
    one character, a string between double quotes and two more characters
    is parsed to the document with that one String member, whatever the
    three characters are: the one after the key, the one after the value
    and the last one of the text are never looked at.  (Key and string
    hold no double quote.) *)
Theorem Parse_one_string_member (key s : string) (c1 c2 c3 : ascii) :
  contains dq key = false ->
  contains dq s = false ->
  forall fuel : nat,
    Parse (2 + fuel)
      ("{" ++ quoted key ++ String c1 (quoted s ++ String c2 (String c3 EmptyString)))
    = Ok (one_string_document key s).
Proof.
  intros Hkey Hs fuel.
  set (tail := String c1 (String dq (s ++ String dq (String c2 (String c3 EmptyString))))).
  assert (Htext : "{" ++ quoted key ++ String c1 (quoted s ++ String c2 (String c3 EmptyString))
                  = String "{" (String dq (key ++ String dq tail))).
  { unfold quoted, tail. simpl. rewrite !append_assoc. reflexivity. }
  rewrite Htext, Parse_keyed.
  assert (Hlen : String.length tail = String.length s + 5).
  { unfold tail. cbn [String.length]. rewrite length_append. simpl. lia. }
  rewrite Hlen.
  pose proof (keyed_get key tail 1) as G1. cbn [Nat.add] in G1.
  pose proof (keyed_drop key tail 2) as D2. cbn [Nat.add] in D2.
  change (String.get 1 tail) with (Some dq) in G1.
  change (string_drop 2 tail)
    with (s ++ String dq (String c2 (String c3 EmptyString))) in D2.
  change (2 + fuel) with (S (S fuel)).
  rewrite ParseJson_for_S by (apply Nat.eqb_neq; cbn [it ParseJson_start]; lia).
  rewrite (keyed_first_turn key _ Hkey). cbn [bind].
  rewrite ParseJson_for_S by (apply Nat.eqb_neq; cbn [it]; lia).
  rewrite (ParseJson_turn_string_value _ _ _ _ s (String c2 (String c3 EmptyString)));
    [ | exact G1 | reflexivity | cbn [it]; rewrite <- Nat.add_succ_r; exact D2
      | exact Hs ].
  cbn [bind]. rewrite ParseJson_for_end by (cbn [it]; lia).
  reflexivity.
Qed.

End StringMember.

Lemma null_member_round_trip_witness :
  contains dq "a key" = false
  /\ @SerializeObject no_float_text (null_document "a key")
     = Ok (one_member_text "a key" "null")
  /\ Parse 5 (one_member_text "a key" "null") = Ok (null_document "a key").
Proof.
  assert (H : contains dq "a key" = false) by reflexivity.
  destruct (@null_member_round_trip std_map no_float_text "a key" H) as [H1 H2].
  split; [exact H|]. split; [exact H1 | exact (H2 0)].
Defined.

Lemma Parse_one_string_member_witness :
  contains dq "k" = false /\ contains dq "v" = false
  /\ Parse 2 ("{" ++ quoted "k" ++ String "=" (quoted "v" ++ String "t" (String "]" EmptyString)))
     = Ok {| _map := [("k", SetString "v" JsonValue_default)] |}.
Proof.
  assert (H1 : contains dq "k" = false) by reflexivity.
  assert (H2 : contains dq "v" = false) by reflexivity.
  split; [exact H1|]. split; [exact H2|].
  exact (Parse_one_string_member "k" "v" "=" "t" "]" H1 H2 0).
Defined.

(* ================================================================== *)
(** ** The parser comes to an end on text without an opening bracket *)

Lemma advances_bind {A C : Type} (lo lo' : nat) (m : outcome (A * nat))
    (k : A * nat -> outcome (C * nat)) :
  advances lo m ->
  (forall a _it, lo <= _it -> advances lo' (k (a, _it))) ->
  advances lo' (bind m k).
Proof. destruct m as [[a i]| | |]; simpl; auto. Qed.

Lemma advances_weaken {A : Type} (lo lo' : nat) (r : outcome (A * nat)) :
  lo' <= lo -> advances lo r -> advances lo' r.
Proof. destruct r as [[a i]| | |]; simpl; auto. lia. Qed.

Lemma get_Some_lt (n : nat) (s : string) (c : ascii) :
  String.get n s = Some c -> n < String.length s.
Proof.
  revert n. induction s as [|x s IH]; intros [|n]; simpl; try discriminate.
  - lia.
  - intros H. apply IH in H. lia.
Qed.

Lemma get_Some_contains (n : nat) (s : string) (c x : ascii) :
  contains x s = false -> String.get n s = Some c -> Ascii.eqb c x = false.
Proof.
  revert n. induction s as [|y s IH]; intros [|n]; simpl; try discriminate.
  - rewrite contains_cons. intros H [= ->].
    apply orb_false_iff in H as [H _]. now rewrite Ascii.eqb_sym.
  - rewrite contains_cons. intros H. apply orb_false_iff in H as [_ H].
    now apply IH.
Qed.

Lemma ParseString_while_advances (rest : string) :
  forall (_it : nat) (cache : string),
    advances _it (ParseString_while rest _it cache).
Proof.
  induction rest as [|c rest IH]; intros _it cache; simpl; [exact I|].
  destruct (Ascii.eqb c dq); [simpl; lia|].
  eapply advances_weaken; [|apply IH]. lia.
Qed.

Lemma ParseString_advances (text : string) (_it : nat) :
  advances (_it + 2) (ParseString text _it).
Proof.
  unfold ParseString.
  eapply advances_bind; [apply ParseString_while_advances|].
  intros cache it' Hle. simpl. lia.
Qed.

Lemma ParseNumber_while_advances (_it_end : nat) (rest : string) :
  forall (_it : nat) (cache : string),
    advances _it (ParseNumber_while _it_end rest _it cache).
Proof.
  induction rest as [|c rest IH]; intros _it cache; simpl; [exact I|].
  destruct (negb (Ascii.eqb c ",") || (_it =? _it_end)%nat); [|simpl; lia].
  destruct (Ascii.eqb c "}"); [simpl; lia|].
  eapply advances_weaken; [|apply IH]. lia.
Qed.

Lemma ParseNumber_advances (text : string) (_it_end _it : nat) :
  advances _it (ParseNumber text _it_end _it).
Proof.
  unfold ParseNumber.
  eapply advances_bind; [apply ParseNumber_while_advances|].
  intros cache it' Hle. exact Hle.
Qed.

Lemma ParseBoolean_advances (text : string) (_it : nat) :
  advances _it (ParseBoolean text _it).
Proof.
  unfold ParseBoolean, deref. destruct (String.get _it text) as [c|]; [|exact I].
  cbn [bind]. destruct (Ascii.eqb c "t"); simpl; lia.
Qed.

Section NoBracket.
Context {B : MapBackend}.
Variable text : string.
Variable _it_end : nat.
Hypothesis no_bracket : contains "[" text = false.

(** The places left before the end of the text, the end included. *)
Let left (_it : nat) : nat := String.length text + 1 - _it.

Lemma Parse_functions_end (fuel : nat) :
  (forall _it, 2 * left _it + 1 <= fuel ->
     advances _it (ParseValue text _it_end fuel _it))
  /\ (forall _it, 2 * left _it <= fuel -> 2 <= fuel ->
        advances _it (ParseObject text _it_end fuel _it))
  /\ (forall value _it, 2 * left _it + 1 <= fuel ->
        advances _it (ParseObject_while text _it_end fuel value _it)).
Proof.
  unfold left.
  induction fuel as [|fuel (IHv & IHo & IHow)];
    [repeat split; intros; lia|].
  repeat split.
  - intros _it Hfuel. rewrite ParseValue_S.
    destruct (_it =? _it_end)%nat; [simpl; lia|].
    unfold deref. destruct (String.get _it text) as [c|] eqn:Hget; [|exact I].
    pose proof (get_Some_lt _ _ _ Hget) as Hlt.
    pose proof (get_Some_contains _ _ _ _ no_bracket Hget) as Hb.
    cbn [bind]. unfold ParseValue_switch. rewrite Hb.
    destruct (Ascii.eqb c "n"); [simpl; lia|].
    destruct (Ascii.eqb c "t" || Ascii.eqb c "f").
    { eapply advances_bind; [apply ParseBoolean_advances|].
      intros b it' Hle. exact Hle. }
    destruct (Ascii.eqb c dq).
    { eapply advances_bind; [apply ParseString_advances|].
      intros s it' Hle. simpl. lia. }
    destruct (Ascii.eqb c "{"); [apply IHo; lia|].
    destruct (is_digit c).
    { eapply advances_bind; [apply ParseNumber_advances|].
      intros s it' Hle. exact Hle. }
    eapply advances_weaken; [|apply IHv]; lia.
  - intros _it Hfuel H2. rewrite ParseObject_S.
    eapply advances_bind; [apply IHow; lia|].
    intros v it' Hle. simpl. lia.
  - intros value _it Hfuel. rewrite ParseObject_while_S.
    unfold deref. destruct (String.get _it text) as [c|] eqn:Hget; [|exact I].
    pose proof (get_Some_lt _ _ _ Hget) as Hlt.
    cbn [bind].
    destruct (Ascii.eqb c "}"); [simpl; lia|].
    destruct (is_separator c).
    { eapply advances_weaken; [|apply IHow]; lia. }
    eapply advances_bind; [apply ParseString_advances|].
    intros key it1 H1.
    eapply advances_bind; [apply IHv; lia|].
    intros v it2 H2.
    eapply advances_weaken; [|apply IHow]; lia.
Qed.

Lemma ParseJson_body_ends (fuel : nat) (st : ParseJson_state) :
  2 * left (it st) <= fuel ->
  match ParseJson_body text _it_end fuel st with
  | Ok st' => it st < String.length text /\ it st <= it st'
  | OutOfFuel => False
  | _ => True
  end.
Proof.
  unfold left. intros Hfuel. unfold ParseJson_body, deref.
  destruct (String.get (it st) text) as [c|] eqn:Hget; [|exact I].
  pose proof (get_Some_lt _ _ _ Hget) as Hlt.
  pose proof (get_Some_contains _ _ _ _ no_bracket Hget) as Hb.
  cbn [bind]. rewrite Hb.
  destruct (Ascii.eqb c "n"); [simpl; lia|].
  destruct (Ascii.eqb c "t" || Ascii.eqb c "f").
  { pose proof (ParseBoolean_advances text (it st)) as H.
    destruct (ParseBoolean text (it st)) as [[b i]| | |]; simpl in *; auto. }
  destruct (Ascii.eqb c dq).
  { pose proof (ParseString_advances text (it st)) as H.
    destruct (negb (isKey st));
      destruct (ParseString text (it st)) as [[s i]| | |]; simpl in *; auto; lia. }
  destruct (Ascii.eqb c "{").
  { pose proof (proj1 (proj2 (Parse_functions_end fuel)) (it st)) as H.
    unfold left in H. specialize (H ltac:(lia) ltac:(lia)).
    destruct (ParseObject text _it_end fuel (it st)) as [[v i]| | |];
      simpl in *; auto. }
  destruct (is_digit c); [|simpl; lia].
  pose proof (ParseNumber_advances text _it_end (it st)) as H.
  destruct (ParseNumber text _it_end (it st)) as [[s i]| | |]; simpl in *; auto.
Qed.

Lemma ParseJson_for_ends (fuel : nat) :
  forall st : ParseJson_state,
    2 * left (it st) + 1 <= fuel ->
    is_OutOfFuel (ParseJson_for text _it_end fuel st) = false.
Proof.
  unfold left.
  induction fuel as [|fuel IH]; intros st Hfuel; [lia|].
  cbn [ParseJson_for]. destruct (it st =? _it_end)%nat; [reflexivity|].
  unfold ParseJson_turn.
  pose proof (ParseJson_body_ends fuel st) as Hbody. unfold left in Hbody.
  specialize (Hbody ltac:(lia)).
  destruct (ParseJson_body text _it_end fuel st) as [st'| | |];
    try reflexivity; [|contradiction].
  cbn [bind]. apply IH. unfold ParseJson_incr. cbn [it]. lia.
Qed.

End NoBracket.

(** X14.  On a text that holds no opening bracket [Parse] comes to an end:
    with fuel for two steps per character it returns a document or leaves
    the text, and does not run on.  (The loop of [ParseArray] is the one
    place where the cursor can stand still.) *)
Theorem Parse_ends_without_bracket {B : MapBackend} (fuel : nat)
    (json_str : string) :
  contains "[" json_str = false ->
  2 * String.length json_str + 1 <= fuel ->
  is_OutOfFuel (Parse fuel json_str) = false.
Proof.
  intros Hb Hfuel. unfold Parse.
  destruct json_str as [|c0 rest] eqn:E; [reflexivity|]. rewrite <- E in *.
  unfold ParseJson, deref.
  destruct (String.get 0 json_str) as [c|]; [|reflexivity].
  cbn [bind]. destruct (Ascii.eqb c "{"); [|reflexivity].
  apply (ParseJson_for_ends json_str _ Hb). cbn [it]. lia.
Qed.

Lemma Parse_ends_without_bracket_witness :
  let text := "{" ++ quoted "a" ++ ":{" ++ quoted "b" ++ ":tru" in
  contains "[" text = false
  /\ 2 * String.length text + 1 <= 27
  /\ is_OutOfFuel (Parse 27 text) = false.
Proof.
  intros text.
  assert (H1 : contains "[" text = false) by reflexivity.
  assert (H2 : 2 * String.length text + 1 <= 27) by (simpl; lia).
  split; [exact H1|]. split; [exact H2|].
  exact (Parse_ends_without_bracket 27 text H1 H2).
Defined.

(* ================================================================== *)
(** ** Integers in decimal, parsed *)

Lemma string_of_uint_digits (d : Decimal.uint) :
  forallb is_digit (list_ascii_of_string (NilEmpty.string_of_uint d)) = true.
Proof.
  induction d; cbn [NilEmpty.string_of_uint list_ascii_of_string forallb];
    try reflexivity; change (is_digit _) with true; exact IHd.
Qed.

Lemma to_string_digits (z : Z) :
  (0 <= z)%Z -> forallb is_digit (list_ascii_of_string (to_string z)) = true.
Proof.
  intros Hz. destruct z as [|p|p]; [reflexivity | | lia].
  unfold to_string. cbn [Z.to_int NilZero.string_of_int].
  unfold NilZero.string_of_uint.
  destruct (Pos.to_uint p) eqn:E; try reflexivity;
    rewrite <- E; apply string_of_uint_digits.
Qed.

Lemma to_string_negative (p : positive) :
  to_string (Z.neg p) = String "-" (to_string (Z.pos p)).
Proof. reflexivity. Qed.

Lemma digits_not_delimiters (s : string) :
  forallb is_digit (list_ascii_of_string s) = true ->
  forallb (fun c => negb (Ascii.eqb c ",") && negb (Ascii.eqb c "}"))
          (list_ascii_of_string s) = true
  /\ erase_spaces s = s.
Proof.
  induction s as [|c s IH]; cbn [list_ascii_of_string forallb erase_spaces];
    [now split|].
  intros H. apply andb_true_iff in H as [Hc Hs].
  destruct (is_digit_not_delimiter c Hc) as (Hcomma & Hbrace & Hspace & _).
  destruct (IH Hs) as [IH1 IH2].
  rewrite Hcomma, Hbrace, Hspace, IH1, IH2. now split.
Qed.

Section IntegerMember.
Context {B : MapBackend}.

(** A turn of the loop of [ParseJson] on the first digit of an integer
    that a comma follows. *)
Lemma ParseJson_turn_integer (text : string) (_it_end fuel : nat)
    (st : ParseJson_state) (z : Z) (rest : string) :
  (0 <= z)%Z ->
  string_drop (it st) text = to_string z ++ String "," rest ->
  it st + String.length (to_string z) <> _it_end ->
  ParseJson_turn text _it_end fuel st
  = Ok {| doc := JsonDocument.AddMember (key_word st)
                   (raw_number (to_string z)) (doc st);
          isKey := false; key_word := key_word st;
          it := S (it st + String.length (to_string z)) |}.
Proof.
  intros Hz Hdrop Hend.
  pose proof (to_string_digits z Hz) as Hdigits.
  destruct (digits_not_delimiters _ Hdigits) as [Hdelim Herase].
  destruct (to_string z) as [|c w] eqn:E.
  - destruct z as [|p|p]; [discriminate E | | lia].
    unfold to_string in E. cbn [Z.to_int NilZero.string_of_int] in E.
    destruct (string_of_uint_head (Pos.to_uint p)) as (c & r & Hs & _).
    rewrite Hs in E. discriminate E.
  - cbn [list_ascii_of_string forallb] in Hdigits, Hdelim.
    apply andb_true_iff in Hdigits as [Hc _].
    apply andb_true_iff in Hdelim as [_ Hw].
    unfold ParseJson_turn.
    rewrite (ParseJson_body_digit text _it_end fuel st c w "," rest).
    + cbn [bind]. unfold ParseJson_incr. cbn [doc isKey key_word it].
      rewrite Herase. reflexivity.
    + exact Hdrop.
    + exact Hc.
    + exact Hw.
    + right. split; [reflexivity|]. cbn [String.length] in Hend. lia.
Qed.

Lemma Parse_integer_member (key : string) (z : Z) (fuel : nat) :
  contains dq key = false -> (0 <= z)%Z ->
  Parse (2 + fuel) (integer_member_text key z)
  = Ok (JsonDocument.AddMember key (raw_number (to_string z))
          JsonDocument_default)
  /\ Parse (3 + fuel) ("{" ++ quoted key ++ ":-" ++ to_string z ++ ",}")
     = Ok (JsonDocument.AddMember key (raw_number (to_string z))
             JsonDocument_default).
Proof.
  intros Hkey Hz. split.
  - set (tail := String ":" (to_string z ++ ",}")).
    assert (Htext : integer_member_text key z
                    = String "{" (String dq (key ++ String dq tail))).
    { unfold integer_member_text, quoted, tail. simpl.
      rewrite !append_assoc. reflexivity. }
    rewrite Htext, Parse_keyed.
    assert (Hlen : String.length tail = String.length (to_string z) + 3).
    { unfold tail. cbn [String.length]. rewrite length_append. simpl. lia. }
    rewrite Hlen.
    pose proof (keyed_drop key tail 1) as D1. cbn [Nat.add] in D1.
    change (string_drop 1 tail) with (to_string z ++ String "," "}") in D1.
    change (2 + fuel) with (S (S fuel)).
    rewrite ParseJson_for_S
      by (apply Nat.eqb_neq; cbn [it ParseJson_start]; lia).
    rewrite (keyed_first_turn key _ Hkey). cbn [bind].
    rewrite ParseJson_for_S by (apply Nat.eqb_neq; cbn [it]; lia).
    rewrite (ParseJson_turn_integer _ _ _ _ z "}" Hz)
      by (cbn [it]; first [exact D1 | lia]).
    cbn [bind doc key_word it].
    rewrite ParseJson_for_end by (cbn [it]; lia).
    reflexivity.
  - set (tail := String ":" (String "-" (to_string z ++ ",}"))).
    assert (Htext : "{" ++ quoted key ++ ":-" ++ to_string z ++ ",}"
                    = String "{" (String dq (key ++ String dq tail))).
    { unfold quoted, tail. simpl. rewrite !append_assoc. reflexivity. }
    rewrite Htext, Parse_keyed.
    assert (Hlen : String.length tail = String.length (to_string z) + 4).
    { unfold tail. cbn [String.length]. rewrite length_append. simpl. lia. }
    rewrite Hlen.
    pose proof (keyed_get key tail 1) as G1. cbn [Nat.add] in G1.
    change (String.get 1 tail) with (Some "-"%char) in G1.
    pose proof (keyed_drop key tail 2) as D2. cbn [Nat.add] in D2.
    change (string_drop 2 tail) with (to_string z ++ String "," "}") in D2.
    change (3 + fuel) with (S (S (S fuel))).
    rewrite ParseJson_for_S
      by (apply Nat.eqb_neq; cbn [it ParseJson_start]; lia).
    rewrite (keyed_first_turn key _ Hkey). cbn [bind].
    rewrite ParseJson_for_S by (apply Nat.eqb_neq; cbn [it]; lia).
    rewrite (ParseJson_turn_default _ _ _ _ "-"%char)
      by (exact G1 || reflexivity).
    cbn [bind]. unfold ParseJson_incr. cbn [key_word doc it isKey].
    rewrite <- Nat.add_succ_r.
    rewrite ParseJson_for_S by (apply Nat.eqb_neq; cbn [it]; lia).
    rewrite (ParseJson_turn_integer _ _ _ _ z "}" Hz)
      by (cbn [it]; first [exact D2 | lia]).
    cbn [bind doc key_word it].
    rewrite ParseJson_for_end by (cbn [it]; lia).
    reflexivity.
Qed.

(** X15.  An integer member written in decimal and followed by a comma is
    parsed to a raw-text Number that holds its digits without the sign: the
    minus sign is passed over like a separator.  [GetInt] on the parsed
    Number returns the absolute value, for every [int] but [INT_MIN], whose
    magnitude [std::stoi] rejects. *)
Theorem Parse_integer_member_drops_sign (key : string) (z : Z) :
  contains dq key = false ->
  (forall fuel : nat,
     Parse (3 + fuel) (integer_member_text key z)
     = Ok (JsonDocument.AddMember key (raw_number (to_string (Z.abs z)))
             JsonDocument_default))
  /\ ((- INT_MAX <= z <= INT_MAX)%Z ->
      GetInt (raw_number (to_string (Z.abs z))) = Ok (Z.abs z))
  /\ (z = INT_MIN ->
      GetInt (raw_number (to_string (Z.abs z))) = Throw out_of_range).
Proof.
  intros Hkey. split; [|split].
  - intros fuel. destruct z as [|p|p].
    + exact (proj1 (Parse_integer_member key 0 (S fuel) Hkey (Z.le_refl 0))).
    + exact (proj1 (Parse_integer_member key (Z.pos p) (S fuel) Hkey
                      (Pos2Z.is_nonneg p))).
    + exact (proj2 (Parse_integer_member key (Z.pos p) fuel Hkey
                      (Pos2Z.is_nonneg p))).
  - intros Hrange.
    change (GetInt (raw_number (to_string (Z.abs z))))
      with (stoi (to_string (Z.abs z))).
    unfold stoi, sto_signed. rewrite scan_integer_to_string.
    replace (Z.abs z <? 0)%Z with false by (symmetry; apply Z.ltb_ge; lia).
    replace (Z.abs (Z.abs z)) with (Z.abs z) by lia.
    replace ((INT_MIN <=? Z.abs z) && (Z.abs z <=? INT_MAX))%Z with true;
      [reflexivity|].
    symmetry. apply andb_true_iff.
    unfold INT_MIN, INT_MAX in *. split; apply Z.leb_le; lia.
  - intros ->. reflexivity.
Qed.

End IntegerMember.

Lemma Parse_integer_member_drops_sign_witness :
  contains dq "a" = false
  /\ integer_member_text "a" (-42) = "{" ++ quoted "a" ++ ":-42,}"
  /\ @Parse std_map 3 (integer_member_text "a" (-42))
     = Ok {| _map := [("a", raw_number "42")] |}
  /\ (- INT_MAX <= -42 <= INT_MAX)%Z
  /\ GetInt (raw_number "42") = Ok 42%Z.
Proof.
  assert (H1 : contains dq "a" = false) by reflexivity.
  assert (H2 : (- INT_MAX <= -42 <= INT_MAX)%Z) by (split; discriminate).
  destruct (@Parse_integer_member_drops_sign std_map "a" (-42) H1)
    as (Hp & Hg & _).
  split; [exact H1|]. split; [reflexivity|].
  split; [exact (Hp 0)|]. split; [exact H2 | exact (Hg H2)].
Defined.


(* ================================================================== *)
(** ** Arrays of Strings, written and parsed back *)

Lemma string_drop_cons (n : nat) (s : string) (c : ascii) (r : string) :
  string_drop n s = String c r ->
  String.get n s = Some c /\ string_drop (S n) s = r.
Proof.
  revert s. induction n as [|n IH]; intros [|x s]; simpl; try discriminate.
  - intros [= -> ->]. now split.
  - apply IH.
Qed.

Lemma length_quoted (s : string) :
  String.length (quoted s) = String.length s + 2.
Proof. unfold quoted. cbn [String.length]. rewrite length_append. simpl. lia. Qed.

Lemma quoted_append (s r : string) :
  quoted s ++ r = String dq (s ++ String dq r).
Proof. unfold quoted. simpl. now rewrite append_assoc. Qed.

Lemma string_values_render {FT : FloatText} (ss : list string) :
  List.map render (string_values ss) = List.map quoted ss
  /\ forallb serializable (string_values ss) = true
  /\ List.length (string_values ss) = List.length ss.
Proof.
  unfold string_values. rewrite List.map_map, List.length_map.
  split; [reflexivity|]. split; [|reflexivity].
  induction ss as [|s ss IH]; [reflexivity | exact IH].
Qed.

(** What [SerializeObject] writes for a document with one member. *)
Lemma SerializeObject_one_member {B : MapBackend} {FT : FloatText}
    (key : string) (v : JsonValue) :
  serializable v = true ->
  SerializeObject (JsonDocument.AddMember key v JsonDocument_default)
  = Ok (one_member_text key (render v)).
Proof.
  intros Hv. unfold JsonDocument.AddMember, assign.
  cbn [find _map JsonDocument_default]. rewrite emplace_nil.
  rewrite SerializeObject_unfold. unfold JsonDocument.GetMember. cbn [_map].
  rewrite (GenObject_for_concat 1 [(key, v)]).
  - cbn [bind List.map String.concat]. unfold render_member, one_member_text.
    cbn [fst snd]. now rewrite !append_assoc.
  - constructor; [|constructor]. intros _ tmp. now apply GenValue_render.
  - cbn [forallb snd]. now rewrite Hv.
  - discriminate.
  - reflexivity.
Qed.

Section StringArrays.
Context {B : MapBackend}.
Variable text : string.
Variable _it_end : nat.

(** [ParseValue] on the opening quote of a String. *)
Lemma ParseValue_string (fuel _it : nat) (s rest : string) :
  _it <> _it_end -> no_quote s = true ->
  string_drop _it text = quoted s ++ rest ->
  ParseValue text _it_end (S fuel) _it
  = Ok (SetString s JsonValue_default, _it + String.length (quoted s)).
Proof.
  intros Hend Hs Hdrop. rewrite quoted_append in Hdrop.
  destruct (string_drop_cons _ _ _ _ Hdrop) as [Hget Hdrop'].
  rewrite ParseValue_S. apply Nat.eqb_neq in Hend. rewrite Hend.
  unfold deref. rewrite Hget. cbn [bind]. unfold ParseValue_switch.
  change (Ascii.eqb dq "n") with false.
  change (Ascii.eqb dq "t" || Ascii.eqb dq "f") with false.
  change (Ascii.eqb dq dq) with true. cbv iota.
  unfold ParseString. rewrite Hdrop'.
  apply negb_true_iff in Hs.
  rewrite (ParseString_while_closing_quote s (S _it) EmptyString rest Hs).
  cbn [bind append]. rewrite length_quoted. do 2 f_equal. lia.
Qed.

(** A turn of the loop of [ParseArray] on a String element. *)
Lemma ParseArray_while_string_element (fuel : nat) (value : JsonValue)
    (_it : nat) (s rest : string) :
  _it <> _it_end -> no_quote s = true ->
  string_drop _it text = quoted s ++ rest ->
  ParseArray_while text _it_end (S (S fuel)) value _it
  = ParseArray_while text _it_end (S fuel)
      (AddElement (SetString s JsonValue_default) value)
      (_it + String.length (quoted s)).
Proof.
  intros Hend Hs Hdrop. rewrite ParseArray_while_S.
  pose proof Hdrop as Hq. rewrite quoted_append in Hq.
  destruct (string_drop_cons _ _ _ _ Hq) as [Hget _].
  unfold deref. rewrite Hget. cbn [bind].
  change (Ascii.eqb dq "]") with false.
  change (is_separator dq) with false. cbv iota.
  rewrite (ParseValue_string fuel _it s rest Hend Hs Hdrop). reflexivity.
Qed.

(** The loop of [ParseArray] on Strings joined by commas: it adds them in
    the order of the text and stops on the closing bracket. *)
Lemma ParseArray_while_strings (ss : list string) :
  forall (fuel : nat) (value : JsonValue) (_it : nat) (rest : string),
    forallb no_quote ss = true ->
    string_drop _it text
    = String.concat "," (List.map quoted ss) ++ String "]" rest ->
    _it + String.length (String.concat "," (List.map quoted ss)) < _it_end ->
    2 * List.length ss + 1 <= fuel ->
    ParseArray_while text _it_end fuel value _it
    = Ok (fold_left (fun v e => AddElement e v) (string_values ss) value,
          _it + String.length (String.concat "," (List.map quoted ss))).
Proof.
  induction ss as [|s ss IH]; intros fuel value _it rest Hss Hdrop Hend Hfuel.
  - cbn [List.map String.concat append String.length] in *.
    destruct fuel as [|fuel]; [simpl in Hfuel; lia|].
    destruct (string_drop_cons _ _ _ _ Hdrop) as [Hget _].
    rewrite ParseArray_while_S. unfold deref. rewrite Hget. cbn [bind].
    change (Ascii.eqb "]" "]") with true. cbv iota.
    cbn [string_values List.map fold_left]. now rewrite Nat.add_0_r.
  - cbn [forallb] in Hss. apply andb_true_iff in Hss as [Hs Hss].
    cbn [List.length] in Hfuel.
    destruct fuel as [|[|fuel]]; [lia | lia |].
    destruct ss as [|s' ss'].
    + cbn [List.map String.concat] in *.
      rewrite (ParseArray_while_string_element fuel value _it s
                 (String "]" rest)); [| lia | exact Hs | exact Hdrop].
      rewrite (IH (S fuel) _ (_it + String.length (quoted s)) rest Hss).
      * cbn [List.map String.concat String.length string_values fold_left].
        now rewrite Nat.add_0_r.
      * cbn [List.map String.concat append].
        now rewrite string_drop_add, Hdrop, string_drop_append.
      * cbn [List.map String.concat String.length]. lia.
      * simpl. lia.
    + set (C := String.concat "," (List.map quoted (s' :: ss'))) in *.
      assert (HC : String.concat "," (List.map quoted (s :: s' :: ss'))
                   = quoted s ++ String "," C) by reflexivity.
      rewrite HC in *. rewrite length_append in *.
      cbn [String.length] in *. rewrite append_assoc in Hdrop.
      cbn [append] in Hdrop.
      rewrite (ParseArray_while_string_element fuel value _it s
                 (String "," (C ++ String "]" rest)));
        [| lia | exact Hs | exact Hdrop].
      assert (Hcomma : string_drop (_it + String.length (quoted s)) text
                       = String "," (C ++ String "]" rest))
        by now rewrite string_drop_add, Hdrop, string_drop_append.
      destruct (string_drop_cons _ _ _ _ Hcomma) as [Hget Hnext].
      rewrite ParseArray_while_S. unfold deref. rewrite Hget. cbn [bind].
      change (Ascii.eqb "," "]") with false.
      change (is_separator ",") with true. cbv iota.
      rewrite (IH fuel _ (S (_it + String.length (quoted s))) rest Hss Hnext).
      * cbn [string_values List.map fold_left]. do 2 f_equal. lia.
      * lia.
      * cbn [List.length] in *. lia.
Qed.

End StringArrays.

Section StringArrayMember.
Context {B : MapBackend} {FT : FloatText}.

(** A turn of the loop of [ParseJson] on an opening bracket. *)
Lemma ParseJson_turn_array (text : string) (_it_end fuel : nat)
    (st : ParseJson_state) (value : JsonValue) (_it : nat) :
  String.get (it st) text = Some "["%char ->
  ParseArray text _it_end fuel (it st) = Ok (value, _it) ->
  ParseJson_turn text _it_end fuel st
  = Ok {| doc := JsonDocument.AddMember (key_word st) value (doc st);
          isKey := false; key_word := key_word st; it := S _it |}.
Proof.
  intros Hget Harray. unfold ParseJson_turn, ParseJson_body, deref.
  rewrite Hget. cbn [bind].
  change (Ascii.eqb "[" "n") with false.
  change (Ascii.eqb "[" "t" || Ascii.eqb "[" "f") with false.
  change (Ascii.eqb "[" dq) with false.
  change (Ascii.eqb "[" "[") with true. cbv iota.
  rewrite Harray. reflexivity.
Qed.

(** X16.  A document whose one member is an Array of Strings is parsed
    back from its serialization: [SerializeObject] writes the Strings
    between double quotes, joined by commas, between brackets, and [Parse]
    on that text returns the document, the elements in the same order.
    (The key and the Strings hold no double quote, and the number of
    elements fits an [int].)  [ParseArray] leaves the cursor on the closing
    bracket, so that the loop of [ParseJson] ends on the closing brace. *)
Theorem strings_member_round_trip (key : string) (ss : list string) :
  contains dq key = false ->
  forallb no_quote ss = true ->
  fits_int ss = true ->
  SerializeObject (strings_document key ss)
  = Ok (one_member_text key (strings_text ss))
  /\ (forall fuel : nat,
        Parse (4 + (2 * List.length ss + fuel))
          (one_member_text key (strings_text ss))
        = Ok (strings_document key ss)).
Proof.
  intros Hkey Hss Hfits.
  destruct (string_values_render ss) as (Hrender & Hser & Hlen).
  assert (Htype : GetType (array_of (string_values ss)) = JsonValueType.Array)
    by (unfold array_of; now apply array_of_type).
  assert (Harr : GetArray (array_of (string_values ss)) = string_values ss)
    by (unfold array_of; now rewrite array_of_elements).
  split.
  - unfold strings_document. rewrite SerializeObject_one_member.
    + rewrite (render_Array _ Htype), Harr, Hrender. reflexivity.
    + rewrite (serializable_Array _ Htype), Harr, Hser.
      unfold fits_int in *. now rewrite Hlen, Hfits.
  - intros fuel. rewrite one_member_text_keyed.
    set (C := String.concat "," (List.map quoted ss)).
    set (tail := String ":" (strings_text ss ++ "}")).
    assert (Htail : tail = String ":" (String "[" (C ++ String "]" "}"))).
    { unfold tail, strings_text, C. simpl. now rewrite !append_assoc. }
    rewrite Parse_keyed. fold tail.
    assert (Hlength : String.length tail = String.length C + 4).
    { rewrite Htail. cbn [String.length]. rewrite length_append. simpl. lia. }
    rewrite Hlength.
    pose proof (keyed_get key tail 1) as G1. cbn [Nat.add] in G1.
    pose proof (keyed_drop key tail 2) as D2. cbn [Nat.add] in D2.
    rewrite Htail in G1 at 2. rewrite Htail in D2 at 2.
    cbn [String.get string_drop] in G1, D2.
    change (4 + (2 * List.length ss + fuel))
      with (S (S (S (S (2 * List.length ss + fuel))))).
    rewrite ParseJson_for_S
      by (apply Nat.eqb_neq; cbn [it ParseJson_start]; lia).
    rewrite (keyed_first_turn key _ Hkey). cbn [bind].
    rewrite ParseJson_for_S by (apply Nat.eqb_neq; cbn [it]; lia).
    rewrite (ParseJson_turn_array _ _ _ _ (array_of (string_values ss))
               (String.length key + 5 + String.length C)).
    + cbn [bind]. rewrite ParseJson_for_end by (cbn [it]; lia).
      reflexivity.
    + exact G1.
    + cbn [it]. rewrite ParseArray_S.
      rewrite (ParseArray_while_strings _ _ ss _ _ _ "}" Hss).
      * unfold array_of. do 2 f_equal. fold C. lia.
      * fold C. rewrite <- D2. f_equal. lia.
      * fold C. lia.
      * lia.
Qed.

End StringArrayMember.

Lemma strings_member_round_trip_witness :
  let ss := ["x"; "a, b]"; EmptyString] in
  contains dq "k" = false
  /\ forallb no_quote ss = true
  /\ fits_int ss = true
  /\ one_member_text "k" (strings_text ss)
     = "{" ++ quoted "k" ++ ":[" ++ quoted "x" ++ "," ++ quoted "a, b]" ++ ","
           ++ quoted EmptyString ++ "]}"
  /\ @SerializeObject no_float_text (@strings_document std_map "k" ss)
     = Ok (one_member_text "k" (strings_text ss))
  /\ @Parse std_map 10 (one_member_text "k" (strings_text ss))
     = Ok (@strings_document std_map "k" ss).
Proof.
  intros ss.
  assert (H1 : contains dq "k" = false) by reflexivity.
  assert (H2 : forallb no_quote ss = true) by reflexivity.
  assert (H3 : fits_int ss = true) by reflexivity.
  destruct (@strings_member_round_trip std_map no_float_text "k" ss H1 H2 H3)
    as [Hs Hp].
  split; [exact H1|]. split; [exact H2|]. split; [exact H3|].
  split; [reflexivity|]. split; [exact Hs | exact (Hp 0)].
Defined.

(* ================================================================== *)
(** ** [ParseObject] on String members *)

Section StringMembers.
Context {B : MapBackend}.
Variable text : string.
Variable _it_end : nat.

Lemma ParseString_quoted (_it : nat) (s rest : string) :
  no_quote s = true ->
  string_drop _it text = quoted s ++ rest ->
  ParseString text _it = Ok (s, _it + String.length (quoted s)).
Proof.
  intros Hs Hdrop. rewrite quoted_append in Hdrop.
  destruct (string_drop_cons _ _ _ _ Hdrop) as [_ Hdrop'].
  unfold ParseString. rewrite Hdrop'. apply negb_true_iff in Hs.
  rewrite (ParseString_while_closing_quote s (S _it) EmptyString rest Hs).
  cbn [bind append]. rewrite length_quoted. do 2 f_equal. lia.
Qed.

(** A turn of the loop of [ParseObject] on a key and a String. *)
Lemma ParseObject_while_string_member (fuel : nat) (refValue : JsonValue)
    (_it : nat) (ks : string * string) (rest : string) :
  no_quote (fst ks) = true -> no_quote (snd ks) = true ->
  string_drop _it text = string_member_text ks ++ rest ->
  _it + String.length (string_member_text ks) < _it_end ->
  ParseObject_while text _it_end (S (S (S fuel))) refValue _it
  = ParseObject_while text _it_end (S (S fuel))
      (AddMember (fst ks) (SetString (snd ks) JsonValue_default) refValue)
      (_it + String.length (string_member_text ks)).
Proof.
  destruct ks as [k s]. unfold string_member_text. cbn [fst snd].
  intros Hk Hs Hdrop Hend.
  rewrite !length_append in Hend. cbn [String.length] in Hend.
  rewrite !append_assoc in Hdrop. cbn [append] in Hdrop.
  pose proof Hdrop as Hq. rewrite quoted_append in Hq.
  destruct (string_drop_cons _ _ _ _ Hq) as [Hget _].
  rewrite ParseObject_while_S. unfold deref at 1. rewrite Hget. cbn [bind].
  change (Ascii.eqb dq "}") with false.
  change (is_separator dq) with false. cbv iota.
  rewrite (ParseString_quoted _it k _ Hk Hdrop). cbn [bind].
  assert (Hcolon : string_drop (_it + String.length (quoted k)) text
                   = String ":" (quoted s ++ rest))
    by now rewrite string_drop_add, Hdrop, string_drop_append.
  destruct (string_drop_cons _ _ _ _ Hcolon) as [Hget' Hvalue].
  rewrite ParseValue_S.
  replace (_it + String.length (quoted k) =? _it_end)%nat with false
    by (symmetry; apply Nat.eqb_neq; lia).
  unfold deref. rewrite Hget'. cbn [bind]. unfold ParseValue_switch.
  change (Ascii.eqb ":" "n") with false.
  change (Ascii.eqb ":" "t" || Ascii.eqb ":" "f") with false.
  change (Ascii.eqb ":" dq) with false.
  change (Ascii.eqb ":" "[") with false.
  change (Ascii.eqb ":" "{") with false.
  change (is_digit ":") with false. cbv iota.
  rewrite (ParseValue_string text _it_end fuel _ s rest);
    [| lia | exact Hs | exact Hvalue].
  cbn [bind]. f_equal. rewrite !length_append. cbn [String.length]. lia.
Qed.

Lemma ParseObject_while_string_members (pairs : list (string * string)) :
  forall (fuel : nat) (refValue : JsonValue) (_it : nat) (rest : string),
    forallb (fun ks => no_quote (fst ks) && no_quote (snd ks)) pairs = true ->
    string_drop _it text
    = String.concat "," (List.map string_member_text pairs) ++ String "}" rest ->
    _it + String.length (String.concat "," (List.map string_member_text pairs))
    < _it_end ->
    2 * List.length pairs + 1 <= fuel ->
    ParseObject_while text _it_end fuel refValue _it
    = Ok (fold_left
            (fun v ks => AddMember (fst ks)
                           (SetString (snd ks) JsonValue_default) v)
            pairs refValue,
          _it + String.length
                  (String.concat "," (List.map string_member_text pairs))).
Proof.
  induction pairs as [|ks pairs IH];
    intros fuel refValue _it rest Hpairs Hdrop Hend Hfuel.
  - cbn [List.map String.concat append String.length] in *.
    destruct fuel as [|fuel]; [simpl in Hfuel; lia|].
    destruct (string_drop_cons _ _ _ _ Hdrop) as [Hget _].
    rewrite ParseObject_while_S. unfold deref. rewrite Hget. cbn [bind].
    change (Ascii.eqb "}" "}") with true. cbv iota.
    cbn [fold_left]. now rewrite Nat.add_0_r.
  - cbn [forallb] in Hpairs. apply andb_true_iff in Hpairs as [Hks Hpairs].
    apply andb_true_iff in Hks as [Hk Hs].
    cbn [List.length] in Hfuel.
    destruct fuel as [|[|[|fuel]]]; [lia | lia | lia |].
    destruct pairs as [|ks' pairs'].
    + cbn [List.map String.concat] in *.
      rewrite (ParseObject_while_string_member fuel refValue _it ks
                 (String "}" rest) Hk Hs Hdrop Hend).
      rewrite (IH (S (S fuel)) _ (_it + String.length (string_member_text ks))
                 rest Hpairs).
      * cbn [List.map String.concat String.length fold_left].
        now rewrite Nat.add_0_r.
      * cbn [List.map String.concat append].
        now rewrite string_drop_add, Hdrop, string_drop_append.
      * cbn [List.map String.concat String.length]. lia.
      * simpl. lia.
    + set (C := String.concat "," (List.map string_member_text (ks' :: pairs')))
        in *.
      assert (HC : String.concat ","
                     (List.map string_member_text (ks :: ks' :: pairs'))
                   = string_member_text ks ++ String "," C) by reflexivity.
      rewrite HC in *. rewrite length_append in *.
      cbn [String.length] in *. rewrite append_assoc in Hdrop.
      cbn [append] in Hdrop.
      rewrite (ParseObject_while_string_member fuel refValue _it ks
                 (String "," (C ++ String "}" rest)) Hk Hs Hdrop)
        by lia.
      assert (Hcomma : string_drop
                         (_it + String.length (string_member_text ks)) text
                       = String "," (C ++ String "}" rest))
        by now rewrite string_drop_add, Hdrop, string_drop_append.
      destruct (string_drop_cons _ _ _ _ Hcomma) as [Hget Hnext].
      rewrite ParseObject_while_S. unfold deref. rewrite Hget. cbn [bind].
      change (Ascii.eqb "," "}") with false.
      change (is_separator ",") with true. cbv iota.
      rewrite (IH (S fuel) _ (S (_it + String.length (string_member_text ks)))
                 rest Hpairs Hnext).
      * cbn [fold_left]. do 2 f_equal. lia.
      * lia.
      * cbn [List.length] in *. lia.
Qed.

(** X17.  [ParseObject], with the cursor on the opening brace of an Object
    whose members are Strings, returns the Object with these members added
    in the order of the text (a key that comes again replaces the value),
    and leaves the cursor one place after the closing brace; [ParseArray]
    leaves it on the closing bracket.  The character between a key and its
    value is passed over by [ParseValue].  (Keys and Strings hold no double
    quote, and the Object lies before [_it_end].) *)
Theorem ParseObject_string_members (pairs : list (string * string))
    (_it : nat) (rest : string) :
  forallb (fun ks => no_quote (fst ks) && no_quote (snd ks)) pairs = true ->
  string_drop _it text
  = "{" ++ String.concat "," (List.map string_member_text pairs)
        ++ String "}" rest ->
  _it + String.length (String.concat "," (List.map string_member_text pairs))
  + 1 < _it_end ->
  forall fuel : nat,
    ParseObject text _it_end (2 * List.length pairs + 2 + fuel) _it
    = Ok (object_of pairs,
          _it + String.length
                  (String.concat "," (List.map string_member_text pairs)) + 2).
Proof.
  intros Hpairs Hdrop Hend fuel.
  cbn [append] in Hdrop.
  destruct (string_drop_cons _ _ _ _ Hdrop) as [_ Hnext].
  replace (2 * List.length pairs + 2 + fuel)
    with (S (2 * List.length pairs + 1 + fuel)) by lia.
  rewrite ParseObject_S.
  rewrite (ParseObject_while_string_members pairs _ _ (S _it) rest Hpairs Hnext)
    by lia.
  cbn [bind]. unfold object_of. do 2 f_equal. lia.
Qed.

End StringMembers.

Lemma ParseObject_string_members_witness :
  let text := "{" ++ quoted "a" ++ ":{" ++ quoted "b" ++ ":" ++ quoted "c, }"
                  ++ "," ++ quoted "d" ++ ":" ++ quoted "e" ++ "} }" in
  let pairs := [("b", "c, }"); ("d", "e")] in
  forallb (fun ks => no_quote (fst ks) && no_quote (snd ks)) pairs = true
  /\ string_drop 5 text
     = "{" ++ String.concat "," (List.map string_member_text pairs)
           ++ String "}" " }"
  /\ @ParseObject std_map text 27 6 5 = Ok (@object_of std_map pairs, 25)
  /\ GetObject (@object_of std_map pairs)
     = [("b", SetString "c, }" JsonValue_default);
        ("d", SetString "e" JsonValue_default)].
Proof.
  intros text pairs.
  assert (H1 : forallb (fun ks => no_quote (fst ks) && no_quote (snd ks)) pairs
               = true) by reflexivity.
  assert (H2 : string_drop 5 text
               = "{" ++ String.concat "," (List.map string_member_text pairs)
                     ++ String "}" " }") by reflexivity.
  assert (H3 : 5 + String.length
                     (String.concat "," (List.map string_member_text pairs))
               + 1 < 27) by (simpl; lia).
  split; [exact H1|]. split; [exact H2|].
  split; [exact (@ParseObject_string_members std_map text 27 pairs 5 " }"
                   H1 H2 H3 0) | reflexivity].
Defined.

